(** * gameutils: the entity/component registry of [gameutils/entity.h]

    A shallow embedding of [gameutils::EntityManager] and the properties of
    its public operations: identifier allocation, the two tables (entities
    and the per-type reverse index) and deferred removal. *)

From Stdlib Require Import ZArith Lia.
From stdpp Require Import base gmap strings list fin_maps fin_sets.

Local Open Scope Z_scope.

(** ** Data model *)

(** [std::type_index]: the run-time identity of a component class, here the
    name of the class. *)
Abbreviation type_index := string (only parsing).

(** [typedef uint32_t EntityId]: a 32-bit unsigned integer, as a [Z] in
    [0, 2^32); arithmetic on it wraps. *)
Abbreviation EntityId := Z (only parsing).

Definition wrap32 (z : Z) : Z := z mod 2 ^ 32.

(** [static const EntityId InvalidEntity = 0] *)
Definition InvalidEntity : EntityId := 0.

(** [std::numeric_limits<EntityId>::max()] *)
Definition maxEntityId : EntityId := 2 ^ 32 - 1.

(** An object of a class derived from [struct Component]: its dynamic type
    (what [typeid( *p )] yields) and its address, which is the identity of the
    instance. *)
Record Component : Type := mkComponent {
  typeid : type_index;
  address : positive
}.

#[global] Instance Component_eq_dec : EqDecision Component.
Proof. solve_decision. Defined.

(** [std::shared_ptr<T>]: [None] is the null pointer. *)
Abbreviation shared_ptr T := (option T) (only parsing).
Abbreviation nullptr := None (only parsing).

(** [std::unordered_map<std::type_index, std::shared_ptr<Component>>] *)
Abbreviation ComponentNodes := (gmap string (option Component)) (only parsing).

(** [std::map<EntityId, std::shared_ptr<Component>>] *)
Abbreviation EntityNodes := (gmap Z (option Component)) (only parsing).

(** [std::unordered_map<EntityId, ComponentNodes>] *)
Abbreviation Entities := (gmap Z (gmap string (option Component))) (only parsing).

(** [std::unordered_map<std::type_index, std::shared_ptr<EntityNodes>>].
    Every [EntityNodes] object is made by [std::make_shared] for one slot of
    this map and the manager never stores a null pointer in it, so a slot is
    modelled by the map it points to. *)
Abbreviation ComponentTypes := (gmap string (gmap Z (option Component))) (only parsing).

(** The private members of [class EntityManager]. *)
Record EntityManager : Type := mkEntityManager {
  m_entities : Entities;
  m_entitiesMarkedForRemoval : list EntityId;
  m_componentTypes : ComponentTypes;
  m_nextEntityId : EntityId
}.

(** The constructor: empty containers, the cursor at the largest id. *)
Definition EntityManager_new : EntityManager :=
  {| m_entities := ∅;
     m_entitiesMarkedForRemoval := [];
     m_componentTypes := ∅;
     m_nextEntityId := maxEntityId |}.

Definition set_entities (m : Entities) (s : EntityManager) : EntityManager :=
  {| m_entities := m;
     m_entitiesMarkedForRemoval := m_entitiesMarkedForRemoval s;
     m_componentTypes := m_componentTypes s;
     m_nextEntityId := m_nextEntityId s |}.

Definition set_componentTypes (c : ComponentTypes) (s : EntityManager)
  : EntityManager :=
  {| m_entities := m_entities s;
     m_entitiesMarkedForRemoval := m_entitiesMarkedForRemoval s;
     m_componentTypes := c;
     m_nextEntityId := m_nextEntityId s |}.

Definition set_marked (l : list EntityId) (s : EntityManager) : EntityManager :=
  {| m_entities := m_entities s;
     m_entitiesMarkedForRemoval := l;
     m_componentTypes := m_componentTypes s;
     m_nextEntityId := m_nextEntityId s |}.

Definition set_nextEntityId (n : EntityId) (s : EntityManager) : EntityManager :=
  {| m_entities := m_entities s;
     m_entitiesMarkedForRemoval := m_entitiesMarkedForRemoval s;
     m_componentTypes := m_componentTypes s;
     m_nextEntityId := n |}.

(** The outcome of a member function: it returns a value, or it throws
    [std::runtime_error]; either way the members are left in some state. *)
Inductive Result (A : Type) : Type :=
  | Ok (a : A) (s : EntityManager)
  | Throw (what : string) (s : EntityManager).
Arguments Ok {A} a s.
Arguments Throw {A} what s.

Definition state_of {A} (r : Result A) : EntityManager :=
  match r with Ok _ s => s | Throw _ s => s end.

(** [map.insert(value_type(k, v))]: inserts only when the key is absent; the
    flag is the [.second] of the returned pair. *)
Definition map_insert_new `{Countable K} {V} (k : K) (v : V) (m : gmap K V)
  : gmap K V * bool :=
  match m !! k with
  | Some _ => (m, false)
  | None => (<[k := v]> m, true)
  end.

(** ** Operations *)

Module EM.

(** The step of the search loop of [createEntity]. *)
Definition prev_id (entityId : EntityId) : EntityId :=
  if decide (entityId = 1) then maxEntityId else wrap32 (entityId - 1).

(** [while (m_entities.find(entityId) != m_entities.end()) { ... }].
    The loop has no bound of its own; [fuel] bounds the number of tests of
    its condition and [None] means the bound was reached. *)
Fixpoint find_available (fuel : nat) (entities : Entities) (entityId : EntityId)
  : option EntityId :=
  match fuel with
  | O => None
  | S fuel' =>
      match entities !! entityId with
      | None => Some entityId
      | Some _ => find_available fuel' entities (prev_id entityId)
      end
  end.

Definition createEntity (fuel : nat) (s : EntityManager)
  : option (EntityId * EntityManager) :=
  if decide (Z.of_nat (size (m_entities s)) = maxEntityId) then
    Some (InvalidEntity, s)
  else
    match find_available fuel (m_entities s) (m_nextEntityId s) with
    | None => None
    | Some entityId =>
        let '(entities, inserted) :=
          map_insert_new entityId (∅ : ComponentNodes) (m_entities s) in
        if negb inserted then Some (InvalidEntity, s)
        else Some (entityId,
                   set_nextEntityId (prev_id entityId) (set_entities entities s))
    end.

(** The body of [for (auto cmNode: componentNodes)] in [destroyEntity], over
    the nodes in iteration order. The order in which an [unordered_map] is
    iterated is unspecified: [destroyEntity] below takes that of
    [map_to_list], and what is proved of the loop holds for any order. *)
Fixpoint destroyEntity_nodes (entityId : EntityId)
    (nodes : list (type_index * shared_ptr Component)) (s : EntityManager)
  : Result unit :=
  match nodes with
  | [] => Ok tt s
  | (cmType, _) :: nodes' =>
      match m_componentTypes s !! cmType with
      | None => Throw "Could not find expected component type in EM." s
      | Some enNodes =>
          match enNodes !! entityId with
          | None => Throw "Could not find expected entity node in EM." s
          | Some _ =>
              destroyEntity_nodes entityId nodes'
                (set_componentTypes
                   (<[cmType := delete entityId enNodes]> (m_componentTypes s)) s)
          end
      end
  end.

Definition destroyEntity (entityId : EntityId) (s : EntityManager) : Result bool :=
  match m_entities s !! entityId with
  | None => Ok false s
  | Some componentNodes =>
      match destroyEntity_nodes entityId (map_to_list componentNodes) s with
      | Throw what s' => Throw what s'
      | Ok _ s' => Ok true (set_entities (delete entityId (m_entities s')) s')
      end
  end.

Definition destroyAllEntities (s : EntityManager) : Result bool :=
  Ok true (set_componentTypes ∅ (set_entities ∅ s)).

Definition attachComponent (entityId : EntityId) (pComponent : shared_ptr Component)
    (s : EntityManager) : Result bool :=
  match m_entities s !! entityId with
  | None => Ok false s
  | Some cmNodes =>
      match pComponent with
      | None => Ok false s
      | Some inner =>
          let cmType := typeid inner in
          match cmNodes !! cmType with
          | Some _ => Ok false s
          | None =>
              let '(cmNodes', inserted) := map_insert_new cmType pComponent cmNodes in
              if negb inserted then Ok false s
              else
                let s1 := set_entities (<[entityId := cmNodes']> (m_entities s)) s in
                let s2 :=
                  match m_componentTypes s1 !! cmType with
                  | Some _ => s1
                  | None =>
                      set_componentTypes
                        (<[cmType := (∅ : EntityNodes)]> (m_componentTypes s1)) s1
                  end in
                match m_componentTypes s2 !! cmType with
                | None =>
                    Throw "Could not find or create a list of entity nodes in EM." s2
                | Some entityNodes =>
                    Ok true
                      (set_componentTypes
                         (<[cmType :=
                              (map_insert_new entityId pComponent entityNodes).1]>
                            (m_componentTypes s2)) s2)
                end
          end
      end
  end.

(** [detachComponent<T>]; [T] is the template argument, [typeid(T)]. *)
Definition detachComponent (T : type_index) (entityId : EntityId)
    (s : EntityManager) : Result bool :=
  match m_entities s !! entityId with
  | None => Ok false s
  | Some cmNodes =>
      match cmNodes !! T with
      | None => Ok false s
      | Some _ =>
          let s1 := set_entities (<[entityId := delete T cmNodes]> (m_entities s)) s in
          match m_componentTypes s1 !! T with
          | None => Throw "Missing component in EM." s1
          | Some enNodes =>
              match enNodes !! entityId with
              | None => Throw "Missing entity node for component in EM." s1
              | Some _ =>
                  Ok true
                    (set_componentTypes
                       (<[T := delete entityId enNodes]> (m_componentTypes s1)) s1)
              end
          end
      end
  end.

(** [getComponent<T>]: the stored pointer, or null. It changes nothing. *)
Definition getComponent (T : type_index) (entityId : EntityId)
    (s : EntityManager) : shared_ptr Component :=
  match m_entities s !! entityId with
  | None => nullptr
  | Some cmNodes =>
      match cmNodes !! T with
      | None => nullptr
      | Some p => p
      end
  end.

(** [getEntityNodes<T>]: the map for [T], made (empty) on first request. The
    result is the map the returned pointer refers to when the call returns;
    [None] is the null pointer. *)
Definition getEntityNodes (T : type_index) (s : EntityManager)
  : Result (shared_ptr EntityNodes) :=
  match m_componentTypes s !! T with
  | None =>
      let '(types, inserted) :=
        map_insert_new T (∅ : EntityNodes) (m_componentTypes s) in
      if negb inserted then Ok nullptr s
      else Ok (types !! T) (set_componentTypes types s)
  | Some enNodes => Ok (Some enNodes) s
  end.

Definition markForRemoval (entityId : EntityId) (s : EntityManager) : EntityManager :=
  match m_entities s !! entityId with
  | Some _ =>
      set_marked (m_entitiesMarkedForRemoval s ++ [entityId]) s
  | None => s
  end.

(** [for (auto entityId: m_entitiesMarkedForRemoval) destroyEntity(entityId);]
    The returned flags are dropped; an exception leaves the loop. *)
Fixpoint purge_loop (marked : list EntityId) (s : EntityManager) : Result unit :=
  match marked with
  | [] => Ok tt s
  | entityId :: marked' =>
      match destroyEntity entityId s with
      | Ok _ s' => purge_loop marked' s'
      | Throw what s' => Throw what s'
      end
  end.

Definition purge (s : EntityManager) : Result unit :=
  purge_loop (m_entitiesMarkedForRemoval s) s.

End EM.

(** [getComponentAs<T>], the free function after the class: the pointer
    itself when it is non-null and the dynamic type of its object is [T];
    otherwise it throws, [inl] holding the message of the exception. *)
Definition getComponentAs (T : type_index) (pComponent : shared_ptr Component)
  : string + shared_ptr Component :=
  match pComponent with
  | None => inl "Attempted to cast component from null pointer."
  | Some inner =>
      if decide (typeid inner = T) then inr pComponent
      else inl "Attempted to cast component to incompatible type."
  end.

(** ** Histories of calls *)

(** A call of a public member function with its arguments. *)
Inductive Op : Type :=
  | OpCreateEntity
  | OpDestroyEntity (entityId : EntityId)
  | OpDestroyAllEntities
  | OpAttachComponent (entityId : EntityId) (pComponent : shared_ptr Component)
  | OpDetachComponent (T : type_index) (entityId : EntityId)
  | OpGetComponent (T : type_index) (entityId : EntityId)
  | OpGetEntityNodes (T : type_index)
  | OpMarkForRemoval (entityId : EntityId)
  | OpPurge.

(** What a call returns. *)
Inductive Value : Type :=
  | VId (entityId : EntityId)
  | VBool (b : bool)
  | VComponent (p : shared_ptr Component)
  | VNodes (p : shared_ptr EntityNodes)
  | VVoid.

Definition returning {A} (f : A → Value) (r : Result A) : Result Value :=
  match r with
  | Ok a s => Ok (f a) s
  | Throw what s => Throw what s
  end.

(** One call on state [s]; [None] only when [createEntity] is cut by [fuel]. *)
Definition call (fuel : nat) (op : Op) (s : EntityManager) : option (Result Value) :=
  match op with
  | OpCreateEntity =>
      match EM.createEntity fuel s with
      | Some (entityId, s') => Some (Ok (VId entityId) s')
      | None => None
      end
  | OpDestroyEntity entityId => Some (returning VBool (EM.destroyEntity entityId s))
  | OpDestroyAllEntities => Some (returning VBool (EM.destroyAllEntities s))
  | OpAttachComponent entityId pComponent =>
      Some (returning VBool (EM.attachComponent entityId pComponent s))
  | OpDetachComponent T entityId =>
      Some (returning VBool (EM.detachComponent T entityId s))
  | OpGetComponent T entityId => Some (Ok (VComponent (EM.getComponent T entityId s)) s)
  | OpGetEntityNodes T => Some (returning VNodes (EM.getEntityNodes T s))
  | OpMarkForRemoval entityId => Some (Ok VVoid (EM.markForRemoval entityId s))
  | OpPurge => Some (returning (λ _, VVoid) (EM.purge s))
  end.

(** [run s tr s']: the calls of [tr], each with its outcome, take the manager
    from [s] to [s']. A call that throws leaves the manager as the exception
    found it, and the history may go on from there. *)
Inductive run : EntityManager → list (Op * Result Value) → EntityManager → Prop :=
  | run_nil s : run s [] s
  | run_cons s op r tr s' :
      (∃ fuel, call fuel op s = Some r) →
      run (state_of r) tr s' →
      run s ((op, r) :: tr) s'.

(** The states of a manager: what a history of calls makes of a new one. *)
Definition reachable (s : EntityManager) : Prop :=
  ∃ tr, run EntityManager_new tr s.

(** The ids returned by the [createEntity] calls of a history, in order. *)
Fixpoint created_ids (tr : list (Op * Result Value)) : list EntityId :=
  match tr with
  | [] => []
  | (OpCreateEntity, Ok (VId entityId) _) :: tr' => entityId :: created_ids tr'
  | _ :: tr' => created_ids tr'
  end.

(** A call that runs [destroyEntity]: directly, or through [purge]; or
    [destroyAllEntities]. *)
Definition destroys (op : Op) : bool :=
  match op with
  | OpDestroyEntity _ | OpDestroyAllEntities | OpPurge => true
  | _ => false
  end.

(** ** Observations and invariants *)

(** The entry of a two-level table. *)
Definition lookup2 `{Countable K1} `{Countable K2} {V}
    (m : gmap K1 (gmap K2 V)) (k1 : K1) (k2 : K2) : option V :=
  m !! k1 ≫= λ inner, inner !! k2.

(** [m_entities[e][T]] and [m_componentTypes[T][e]], when they exist. *)
Definition entity_entry (s : EntityManager) (e : EntityId) (T : type_index)
  : option (shared_ptr Component) :=
  lookup2 (m_entities s) e T.

Definition index_entry (s : EntityManager) (T : type_index) (e : EntityId)
  : option (shared_ptr Component) :=
  lookup2 (m_componentTypes s) T e.

Definition live (s : EntityManager) (e : EntityId) : Prop :=
  is_Some (m_entities s !! e).

(** The two tables agree entry by entry. *)
Definition consistent (s : EntityManager) : Prop :=
  ∀ e T, entity_entry s e T = index_entry s T e.

(** Live ids and the cursor stay in [1, max]. *)
Definition ids_in_range (s : EntityManager) : Prop :=
  (∀ e, live s e → 1 ≤ e ≤ maxEntityId) ∧ 1 ≤ m_nextEntityId s ≤ maxEntityId.

(** Every stored pointer is non-null and filed under its dynamic type. *)
Definition well_typed (s : EntityManager) : Prop :=
  ∀ e T p, entity_entry s e T = Some p → ∃ c, p = Some c ∧ typeid c = T.

(** What every state of a manager satisfies. *)
Definition invariant (s : EntityManager) : Prop :=
  consistent s ∧ ids_in_range s ∧ well_typed s.

(** ** The states the operations produce *)

(** The state a successful [createEntity] produces. *)
Definition created (e : EntityId) (s : EntityManager) : EntityManager :=
  set_nextEntityId (EM.prev_id e)
    (set_entities (<[e := (∅ : ComponentNodes)]> (m_entities s)) s).

(** The state a successful attach produces: the node goes into the entity's
    map, and into the map of its type unless that already has a node for the
    entity. *)
Definition attached (e : EntityId) (c : Component) (s : EntityManager)
  : EntityManager :=
  let T := typeid c in
  let cmNodes := default ∅ (m_entities s !! e) in
  let enNodes := default ∅ (m_componentTypes s !! T) in
  set_componentTypes
    (<[T := (map_insert_new e (Some c) enNodes).1]> (m_componentTypes s))
    (set_entities (<[e := <[T := Some c]> cmNodes]> (m_entities s)) s).

(** The state a successful detach produces. *)
Definition detached (T : type_index) (e : EntityId) (s : EntityManager)
  : EntityManager :=
  let cmNodes := default ∅ (m_entities s !! e) in
  let enNodes := default ∅ (m_componentTypes s !! T) in
  set_componentTypes
    (<[T := delete e enNodes]> (m_componentTypes s))
    (set_entities (<[e := delete T cmNodes]> (m_entities s)) s).

(** The value a call returns, if it returns. *)
Definition returned {A} (r : Result A) : option A :=
  match r with Ok a _ => Some a | Throw _ _ => None end.

(** The same outcome, with the marked list replaced. *)
Definition with_marked {A} (l : list EntityId) (r : Result A) : Result A :=
  match r with
  | Ok a s => Ok a (set_marked l s)
  | Throw what s => Throw what (set_marked l s)
  end.

(** ** The order of the search for an id *)

(** The [k]-th id the search loop of [createEntity] looks at when it starts
    at [cursor]. *)
Definition scan (cursor : EntityId) (k : nat) : EntityId :=
  Nat.iter k EM.prev_id cursor.

(** [k] is the first position of the scan whose id is not live. *)
Definition first_available (entities : Entities) (cursor : EntityId) (k : nat)
  : Prop :=
  entities !! scan cursor k = None
  ∧ ∀ j, (j < k)%nat → is_Some (entities !! scan cursor j).

(** ** Effects on the live ids *)

(** No call of the history runs [destroyEntity] or [destroyAllEntities]. *)
Definition no_destroy (tr : list (Op * Result Value)) : Prop :=
  ∀ op r, (op, r) ∈ tr → destroys op = false.

(** No call of the history destroys the entity [e]: none is
    [destroyEntity e] or [destroyAllEntities], and none is a [purge] at a
    moment when [e] is in the marked list. [s] is the state the history
    starts from; calls on other ids, whatever they return, are allowed. *)
Fixpoint not_destroyed_in (e : EntityId) (s : EntityManager)
    (tr : list (Op * Result Value)) : Prop :=
  match tr with
  | [] => True
  | (op, r) :: tr' =>
      match op with
      | OpDestroyEntity e' => e' ≠ e
      | OpDestroyAllEntities => False
      | OpPurge => e ∉ m_entitiesMarkedForRemoval s
      | _ => True
      end
      ∧ not_destroyed_in e (state_of r) tr'
  end.

(** What a call does to the set of live ids. *)
Definition live_effect (op : Op) (v : Value) (s s' : EntityManager) : Prop :=
  match op with
  | OpCreateEntity =>
      ∃ e, v = VId e
        ∧ ((e = InvalidEntity ∧ s' = s
            ∧ Z.of_nat (size (m_entities s)) = maxEntityId)
           ∨ (1 ≤ e ≤ maxEntityId ∧ ¬ live s e ∧ s' = created e s
              ∧ Z.of_nat (size (m_entities s)) ≠ maxEntityId))
  | OpDestroyEntity e =>
      ∃ b, v = VBool b ∧ (b = true ↔ live s e)
        ∧ ∀ e', live s' e' ↔ live s e' ∧ e' ≠ e
  | OpDestroyAllEntities => ∀ e', ¬ live s' e'
  | OpPurge => ∀ e', live s' e' ↔ live s e' ∧ e' ∉ m_entitiesMarkedForRemoval s
  | _ => ∀ e', live s' e' ↔ live s e'
  end.

(** ** The allocation rule of the specification *)

(** The allocation rule as the specification words it: scan downward from
    the cursor, wrapping from 1 back to the maximum, until an id that is not
    live is found; mark it live, move the cursor past it (wrapping), and
    return it; return the invalid id when the entire space is live. *)
Definition next_below (e : EntityId) : EntityId :=
  if decide (e = 1) then maxEntityId else e - 1.

Definition visited (cursor : EntityId) (k : nat) : EntityId :=
  Nat.iter k next_below cursor.

Definition exhausted (s : EntityManager) : Prop :=
  ∀ e, 1 ≤ e ≤ maxEntityId → live s e.

Inductive allocate (s : EntityManager) : EntityId → EntityManager → Prop :=
  | allocate_exhausted :
      exhausted s → allocate s InvalidEntity s
  | allocate_first (k : nat) (e : EntityId) :
      e = visited (m_nextEntityId s) k →
      ¬ live s e →
      (∀ j, (j < k)%nat → live s (visited (m_nextEntityId s) j)) →
      allocate s e
        {| m_entities := <[e := ∅]> (m_entities s);
           m_entitiesMarkedForRemoval := m_entitiesMarkedForRemoval s;
           m_componentTypes := m_componentTypes s;
           m_nextEntityId := next_below e |}.

(** ** A small history, for instances of the theorems *)

Module Demo.

Definition position : Component := mkComponent "Position" 1.
Definition position' : Component := mkComponent "Position" 2.

(** One entity. *)
Definition s1 : EntityManager := created maxEntityId EntityManager_new.
(** The entity with a [Position]. *)
Definition s2 : EntityManager := attached maxEntityId position s1.
(** The entity marked for removal. *)
Definition s3 : EntityManager := EM.markForRemoval maxEntityId s2.

(** A second entity. *)
Definition s4 : EntityManager := created (maxEntityId - 1) s2.

(** The calls that lead to [s4]. *)
Definition history : list (Op * Result Value) :=
  [ (OpCreateEntity, Ok (VId maxEntityId) s1);
    (OpAttachComponent maxEntityId (Some position), Ok (VBool true) s2);
    (OpCreateEntity, Ok (VId (maxEntityId - 1)) s4) ].

(** A second entity beside the first, bare one, and the state after it has
    been destroyed again. *)
Definition s5 : EntityManager := created (maxEntityId - 1) s1.
Definition s6 : EntityManager := set_nextEntityId (maxEntityId - 2) s1.

(** Two states in which the tables disagree; no history of calls leads to
    them, a caller gets there by writing through the map that
    [getEntityNodes] hands out. In [index_node_erased] the entity has its
    [Position] and the map of [Position] has lost the node; in
    [index_node_stale] the entity has no component and the map of [Position]
    has a node for it. *)
Definition index_node_erased : EntityManager :=
  set_componentTypes {["Position" := ∅]} s2.
Definition index_node_stale : EntityManager :=
  set_componentTypes (m_componentTypes s2) s1.

(** The state after the entity of [s2] has been destroyed: no entity, and
    the map of [Position] left empty. *)
Definition s2_destroyed : EntityManager :=
  set_entities ∅ (set_componentTypes {["Position" := ∅]} s2).

(** The second component class of the unit tests. *)
Definition velocity : Component := mkComponent "Velocity" 3.

(** [n] calls of [createEntity] in a row, as in the loops of the unit tests;
    the ids in the order returned. *)
Fixpoint create_entities (fuel n : nat) (s : EntityManager)
  : option (list EntityId * EntityManager) :=
  match n with
  | O => Some ([], s)
  | S n' =>
      match EM.createEntity fuel s with
      | None => None
      | Some (e, s1) =>
          match create_entities fuel n' s1 with
          | None => None
          | Some (es, s2) => Some (e :: es, s2)
          end
      end
  end.

(** [markForRemoval] on each id of a list. *)
Definition mark_all (es : list EntityId) (s : EntityManager) : EntityManager :=
  foldl (λ s e, EM.markForRemoval e s) s es.

End Demo.

(** ** Two-level tables *)

Section lookup2.
Context `{Countable K1} `{Countable K2} {V : Type}.
Implicit Types (m : gmap K1 (gmap K2 V)) (inner : gmap K2 V).

Lemma lookup2_empty (a : K1) (b : K2) :
  lookup2 (∅ : gmap K1 (gmap K2 V)) a b = None.
Proof. unfold lookup2. by rewrite lookup_empty. Qed.

Lemma lookup2_Some m a b v :
  lookup2 m a b = Some v ↔ ∃ inner, m !! a = Some inner ∧ inner !! b = Some v.
Proof.
  unfold lookup2. destruct (m !! a) as [inner|]; simpl; split.
  - eauto.
  - by intros (? & [= <-] & ?).
  - done.
  - by intros (? & ? & ?).
Qed.

Lemma lookup2_inner m a b inner :
  m !! a = Some inner → lookup2 m a b = inner !! b.
Proof. unfold lookup2. by intros ->. Qed.

Lemma lookup2_outer_None m a b : m !! a = None → lookup2 m a b = None.
Proof. unfold lookup2. by intros ->. Qed.

Lemma lookup2_insert m k1 inner a b :
  lookup2 (<[k1 := inner]> m) a b
  = if decide (a = k1) then inner !! b else lookup2 m a b.
Proof.
  unfold lookup2. case_decide as Ha.
  - subst. by rewrite lookup_insert_eq.
  - by rewrite lookup_insert_ne.
Qed.

Lemma lookup2_insert_insert m k1 k2 v inner a b :
  m !! k1 = Some inner →
  lookup2 (<[k1 := <[k2 := v]> inner]> m) a b
  = if decide (a = k1 ∧ b = k2) then Some v else lookup2 m a b.
Proof.
  intros Hk. rewrite lookup2_insert.
  destruct (decide (a = k1)) as [->|]; case_decide as Hd;
    try done; try tauto.
  - destruct Hd as [_ ->]. by rewrite lookup_insert_eq.
  - rewrite (lookup2_inner _ _ _ _ Hk). rewrite lookup_insert_ne; [done|].
    intros ->. tauto.
Qed.

Lemma lookup2_insert_delete m k1 k2 inner a b :
  m !! k1 = Some inner →
  lookup2 (<[k1 := delete k2 inner]> m) a b
  = if decide (a = k1 ∧ b = k2) then None else lookup2 m a b.
Proof.
  intros Hk. rewrite lookup2_insert.
  destruct (decide (a = k1)) as [->|]; case_decide as Hd;
    try done; try tauto.
  - destruct Hd as [_ ->]. by rewrite lookup_delete_eq.
  - rewrite (lookup2_inner _ _ _ _ Hk). rewrite lookup_delete_ne; [done|].
    intros ->. tauto.
Qed.

Lemma lookup2_insert_fresh m k1 a b :
  m !! k1 = None → lookup2 (<[k1 := (∅ : gmap K2 V)]> m) a b = lookup2 m a b.
Proof.
  intros Hk. rewrite lookup2_insert. case_decide as Ha; [|done].
  subst. by rewrite lookup_empty, (lookup2_outer_None _ _ _ Hk).
Qed.

Lemma lookup2_delete m k1 a b :
  lookup2 (delete k1 m) a b = if decide (a = k1) then None else lookup2 m a b.
Proof.
  unfold lookup2. case_decide as Ha.
  - subst. by rewrite lookup_delete_eq.
  - by rewrite lookup_delete_ne.
Qed.
End lookup2.

(** ** What each operation does *)

Lemma map_insert_new_None `{Countable K} {V} (k : K) (v : V) (m : gmap K V) :
  m !! k = None → map_insert_new k v m = (<[k := v]> m, true).
Proof. unfold map_insert_new. by intros ->. Qed.

Lemma map_insert_new_Some `{Countable K} {V} (k : K) (v w : V) (m : gmap K V) :
  m !! k = Some w → map_insert_new k v m = (m, false).
Proof. unfold map_insert_new. by intros ->. Qed.

Lemma map_insert_new_lookup `{Countable K} {V} (k : K) (v : V) (m : gmap K V) :
  (map_insert_new k v m).1 !! k = Some (default v (m !! k)).
Proof.
  unfold map_insert_new. destruct (m !! k) as [w|] eqn:E; simpl.
  - done.
  - by rewrite lookup_insert_eq.
Qed.

Lemma map_insert_new_lookup_ne `{Countable K} {V} (k k' : K) (v : V) (m : gmap K V) :
  k ≠ k' → (map_insert_new k v m).1 !! k' = m !! k'.
Proof.
  intros Hne. unfold map_insert_new. destruct (m !! k); simpl; [done|].
  by rewrite lookup_insert_ne.
Qed.

Section operations.
Implicit Types (s : EntityManager) (e : EntityId) (T : type_index)
  (c : Component) (p : shared_ptr Component).

(** *** attachComponent *)

Lemma attachComponent_unknown e p s :
  m_entities s !! e = None → EM.attachComponent e p s = Ok false s.
Proof. unfold EM.attachComponent. by intros ->. Qed.

Lemma attachComponent_null e s : EM.attachComponent e nullptr s = Ok false s.
Proof. unfold EM.attachComponent. by destruct (m_entities s !! e). Qed.

Lemma attachComponent_duplicate e c s :
  is_Some (entity_entry s e (typeid c)) →
  EM.attachComponent e (Some c) s = Ok false s.
Proof.
  intros [q Hq]. apply lookup2_Some in Hq as (cmNodes & He & HT).
  unfold EM.attachComponent. by rewrite He, HT.
Qed.

Lemma attachComponent_fresh e c s :
  live s e → entity_entry s e (typeid c) = None →
  EM.attachComponent e (Some c) s = Ok true (attached e c s).
Proof.
  intros [cmNodes He] HT. unfold entity_entry in HT.
  rewrite (lookup2_inner _ _ _ _ He) in HT.
  unfold EM.attachComponent, attached. rewrite He, HT. simpl.
  rewrite (map_insert_new_None _ _ _ HT). simpl.
  destruct (m_componentTypes s !! typeid c) as [enNodes|] eqn:Hc; simpl.
  - by rewrite Hc.
  - rewrite lookup_insert_eq. simpl. by rewrite insert_insert_eq.
Qed.

Lemma attached_entity_entry e c s e' T' :
  live s e →
  entity_entry (attached e c s) e' T'
  = if decide (e' = e ∧ T' = typeid c) then Some (Some c)
    else entity_entry s e' T'.
Proof.
  intros [cmNodes He]. unfold entity_entry, attached. simpl. rewrite He. simpl.
  by apply lookup2_insert_insert.
Qed.

Lemma attached_index_entry e c s T' e' :
  index_entry (attached e c s) T' e'
  = if decide (T' = typeid c ∧ e' = e)
    then Some (default (Some c) (index_entry s (typeid c) e))
    else index_entry s T' e'.
Proof.
  unfold index_entry, attached. simpl. rewrite lookup2_insert.
  destruct (decide (T' = typeid c)) as [->|HT].
  - destruct (decide (e' = e)) as [->|He].
    + rewrite decide_True by done. rewrite map_insert_new_lookup.
      unfold lookup2. by destruct (m_componentTypes s !! typeid c).
    + rewrite decide_False by tauto. rewrite map_insert_new_lookup_ne by done.
      unfold lookup2. by destruct (m_componentTypes s !! typeid c).
  - by rewrite decide_False by tauto.
Qed.

(** [attachComponent] never throws, and a call that returns [false] changes
    nothing. *)
Lemma attachComponent_cases e p s :
  EM.attachComponent e p s = Ok false s
  ∨ ∃ c, p = Some c ∧ live s e ∧ entity_entry s e (typeid c) = None
         ∧ EM.attachComponent e p s = Ok true (attached e c s).
Proof.
  destruct (m_entities s !! e) as [cmNodes|] eqn:He;
    [|left; by apply attachComponent_unknown].
  destruct p as [c|]; [|left; apply attachComponent_null].
  destruct (entity_entry s e (typeid c)) as [q|] eqn:HT.
  - left. apply attachComponent_duplicate. by rewrite HT.
  - right. exists c. split_and!; [done|by exists cmNodes|done|].
    apply attachComponent_fresh; [by exists cmNodes|done].
Qed.

(** *** detachComponent *)

Lemma detachComponent_unknown T e s :
  m_entities s !! e = None → EM.detachComponent T e s = Ok false s.
Proof. unfold EM.detachComponent. by intros ->. Qed.

Lemma detachComponent_missing T e s :
  entity_entry s e T = None → EM.detachComponent T e s = Ok false s.
Proof.
  unfold entity_entry, lookup2, EM.detachComponent.
  destruct (m_entities s !! e) as [cmNodes|]; simpl; [|done]. by intros ->.
Qed.

Lemma detachComponent_present T e s :
  is_Some (entity_entry s e T) → is_Some (index_entry s T e) →
  EM.detachComponent T e s = Ok true (detached T e s).
Proof.
  intros [q Hq] [q' Hq'].
  apply lookup2_Some in Hq as (cmNodes & He & HT).
  apply lookup2_Some in Hq' as (enNodes & Hc & Hi).
  unfold EM.detachComponent, detached. rewrite He, HT. simpl.
  by rewrite Hc, Hi.
Qed.

(** When the index lacks the node, [detachComponent] has already erased the
    entity's node when it throws. *)
Lemma detachComponent_corrupt T e s :
  is_Some (entity_entry s e T) → index_entry s T e = None →
  ∃ what,
    EM.detachComponent T e s
    = Throw what
        (set_entities
           (<[e := delete T (default ∅ (m_entities s !! e))]> (m_entities s)) s).
Proof.
  intros [q Hq] Hi. apply lookup2_Some in Hq as (cmNodes & He & HT).
  unfold EM.detachComponent, index_entry, lookup2 in *. rewrite He, HT. simpl.
  destruct (m_componentTypes s !! T) as [enNodes|]; simpl in *.
  - rewrite Hi. eauto.
  - eauto.
Qed.

Lemma detached_entity_entry T e s e' T' :
  live s e →
  entity_entry (detached T e s) e' T'
  = if decide (e' = e ∧ T' = T) then None else entity_entry s e' T'.
Proof.
  intros [cmNodes He]. unfold entity_entry, detached. simpl. rewrite He. simpl.
  by apply lookup2_insert_delete.
Qed.

Lemma detached_index_entry T e s T' e' :
  is_Some (m_componentTypes s !! T) →
  index_entry (detached T e s) T' e'
  = if decide (T' = T ∧ e' = e) then None else index_entry s T' e'.
Proof.
  intros [enNodes Hc]. unfold index_entry, detached. simpl. rewrite Hc. simpl.
  by apply lookup2_insert_delete.
Qed.

(** *** getComponent, getEntityNodes *)

Lemma getComponent_entry T e s :
  EM.getComponent T e s = default nullptr (entity_entry s e T).
Proof.
  unfold EM.getComponent, entity_entry, lookup2.
  destruct (m_entities s !! e) as [cmNodes|]; simpl; [|done].
  by destruct (cmNodes !! T).
Qed.

(** [getEntityNodes] returns a non-null pointer to the map of [T]; the only
    change it can make is an empty map for a type that had none. *)
Lemma getEntityNodes_spec T s :
  ∃ enNodes s',
    EM.getEntityNodes T s = Ok (Some enNodes) s'
    ∧ (∀ e, enNodes !! e = index_entry s T e)
    ∧ m_componentTypes s' !! T = Some enNodes
    ∧ (∀ T' e, index_entry s' T' e = index_entry s T' e)
    ∧ m_entities s' = m_entities s
    ∧ m_entitiesMarkedForRemoval s' = m_entitiesMarkedForRemoval s
    ∧ m_nextEntityId s' = m_nextEntityId s.
Proof.
  unfold EM.getEntityNodes.
  destruct (m_componentTypes s !! T) as [enNodes|] eqn:Hc.
  - exists enNodes, s. split_and!; try done.
    intros e. unfold index_entry. by rewrite (lookup2_inner _ _ _ _ Hc).
  - rewrite (map_insert_new_None _ _ _ Hc). simpl.
    rewrite lookup_insert_eq. eexists _, _. split_and!; try done.
    + intros e. unfold index_entry.
      by rewrite (lookup2_outer_None _ _ _ Hc), lookup_empty.
    + simpl. by rewrite lookup_insert_eq.
    + intros T' e. unfold index_entry. simpl. by apply lookup2_insert_fresh.
Qed.
End operations.

Section destroy.
Implicit Types (s : EntityManager) (e : EntityId) (T : type_index).

(** *** destroyEntity *)

Lemma destroyEntity_unknown e s :
  m_entities s !! e = None → EM.destroyEntity e s = Ok false s.
Proof. unfold EM.destroyEntity. by intros ->. Qed.

(** The loop over the entity's nodes touches [m_componentTypes] only. *)
Lemma destroyEntity_nodes_frame e nodes s :
  let s' := state_of (EM.destroyEntity_nodes e nodes s) in
  m_entities s' = m_entities s
  ∧ m_entitiesMarkedForRemoval s' = m_entitiesMarkedForRemoval s
  ∧ m_nextEntityId s' = m_nextEntityId s.
Proof.
  revert s. induction nodes as [|[T p] nodes IH]; intros s; simpl; [done|].
  destruct (m_componentTypes s !! T) as [enNodes|]; simpl; [|done].
  destruct (enNodes !! e); simpl; [|done].
  apply (IH (set_componentTypes _ s)).
Qed.

(** When the index has a node of the entity for each listed type, the loop
    erases exactly those nodes and does not throw. *)
Lemma destroyEntity_nodes_ok e nodes s :
  NoDup nodes.*1 →
  (∀ T, T ∈ nodes.*1 → is_Some (index_entry s T e)) →
  ∃ s', EM.destroyEntity_nodes e nodes s = Ok tt s'
    ∧ ∀ T' e', index_entry s' T' e'
               = if decide (e' = e ∧ T' ∈ nodes.*1) then None
                 else index_entry s T' e'.
Proof.
  revert s. induction nodes as [|[T p] nodes IH]; intros s Hnd Hin; simpl.
  - exists s. split; [done|]. intros T' e'.
    rewrite decide_False; [done|]. intros [_ Hel]. by apply elem_of_nil in Hel.
  - simpl in Hnd. apply NoDup_cons in Hnd as [HT Hnd].
    destruct (Hin T) as [q Hq]; [simpl; left|].
    apply lookup2_Some in Hq as (enNodes & Hc & Hi). rewrite Hc, Hi.
    set (s1 := set_componentTypes _ s).
    assert (Hs1 : ∀ T' e', index_entry s1 T' e'
              = if decide (T' = T ∧ e' = e) then None else index_entry s T' e').
    { intros T' e'. unfold index_entry, s1. simpl.
      by apply lookup2_insert_delete. }
    destruct (IH s1 Hnd) as (s' & Hrun & Hs').
    { intros T' HT'. rewrite Hs1, decide_False.
      - apply Hin. simpl. by right.
      - intros [-> _]. done. }
    exists s'. split; [done|]. intros T' e'. rewrite Hs', Hs1.
    destruct (decide (e' = e ∧ T' ∈ nodes.*1)) as [[-> Hel]|Hn].
    + rewrite decide_True; [done|]. split; [done|]. by right.
    + destruct (decide (T' = T ∧ e' = e)) as [[-> ->]|Hn'].
      * rewrite decide_True; [done|]. split; [done|]. by left.
      * rewrite decide_False; [done|].
        intros [-> [->|Hel]%elem_of_cons]; tauto.
Qed.

Lemma destroyEntity_live e s :
  consistent s → live s e →
  ∃ s', EM.destroyEntity e s = Ok true s'
    ∧ m_entities s' = delete e (m_entities s)
    ∧ m_entitiesMarkedForRemoval s' = m_entitiesMarkedForRemoval s
    ∧ m_nextEntityId s' = m_nextEntityId s
    ∧ ∀ T' e', index_entry s' T' e'
               = if decide (e' = e) then None else index_entry s T' e'.
Proof.
  intros Hcons [cmNodes He]. unfold EM.destroyEntity. rewrite He.
  assert (Hdom : ∀ T, T ∈ (map_to_list cmNodes).*1 ↔ is_Some (entity_entry s e T)).
  { intros T. unfold entity_entry. rewrite (lookup2_inner _ _ _ _ He).
    rewrite list_elem_of_fmap. split.
    - intros ([T' q] & -> & Hel). apply elem_of_map_to_list in Hel. by exists q.
    - intros [q Hq]. exists (T, q). split; [done|]. by apply elem_of_map_to_list. }
  destruct (destroyEntity_nodes_ok e (map_to_list cmNodes) s) as (s' & Hrun & Hs').
  { apply NoDup_fst_map_to_list. }
  { intros T HT. rewrite <- Hcons. by apply Hdom. }
  pose proof (destroyEntity_nodes_frame e (map_to_list cmNodes) s) as Hfr.
  rewrite Hrun in Hfr |- *. simpl in Hfr. destruct Hfr as (Hm & Hmk & Hnx).
  eexists. split; [done|]. simpl. rewrite Hm. split_and!; try done.
  intros T' e'. unfold index_entry in *. simpl. rewrite Hs'.
  destruct (decide (e' = e)) as [->|He'].
  - case_decide as Hd; [done|]. fold (index_entry s T' e). rewrite <- Hcons.
    destruct (entity_entry s e T') as [q|] eqn:Hq; [|done].
    exfalso. apply Hd. split; [done|]. apply Hdom. by rewrite Hq.
  - by rewrite decide_False by tauto.
Qed.

Lemma destroyEntity_entity_entry e s s' e' T' :
  m_entities s' = delete e (m_entities s) →
  entity_entry s' e' T' = if decide (e' = e) then None else entity_entry s e' T'.
Proof. unfold entity_entry. intros ->. apply lookup2_delete. Qed.

(** [destroyEntity] never touches the marked list or the cursor, whatever
    its outcome. *)
Lemma destroyEntity_frame e s :
  let s' := state_of (EM.destroyEntity e s) in
  m_entitiesMarkedForRemoval s' = m_entitiesMarkedForRemoval s
  ∧ m_nextEntityId s' = m_nextEntityId s.
Proof.
  unfold EM.destroyEntity. destruct (m_entities s !! e) as [cmNodes|]; [|done].
  pose proof (destroyEntity_nodes_frame e (map_to_list cmNodes) s) as Hfr.
  destruct (EM.destroyEntity_nodes e (map_to_list cmNodes) s); simpl in *; tauto.
Qed.

(** *** purge *)

Lemma purge_loop_frame marked s :
  let s' := state_of (EM.purge_loop marked s) in
  m_entitiesMarkedForRemoval s' = m_entitiesMarkedForRemoval s
  ∧ m_nextEntityId s' = m_nextEntityId s.
Proof.
  revert s. induction marked as [|e marked IH]; intros s; simpl; [done|].
  pose proof (destroyEntity_frame e s) as Hfr.
  destruct (EM.destroyEntity e s) as [b s1|what s1]; simpl in *.
  - destruct (IH s1) as [-> ->]. done.
  - done.
Qed.

(** [purge] leaves the marked list as it found it: nothing in it, and
    nothing it calls, erases from [m_entitiesMarkedForRemoval]. *)
Lemma purge_keeps_marked s :
  m_entitiesMarkedForRemoval (state_of (EM.purge s)) = m_entitiesMarkedForRemoval s.
Proof. unfold EM.purge. apply purge_loop_frame. Qed.
End destroy.

(** ** Identifier allocation *)

Section allocation.
Implicit Types (s : EntityManager) (e : EntityId) (entities : Entities).

Lemma maxEntityId_pos : 1 ≤ maxEntityId.
Proof. unfold maxEntityId. lia. Qed.

Lemma prev_id_in_range e :
  1 ≤ e ≤ maxEntityId → 1 ≤ EM.prev_id e ≤ maxEntityId.
Proof.
  intros He. unfold EM.prev_id. case_decide; [pose proof maxEntityId_pos; lia|].
  unfold wrap32, maxEntityId in *. rewrite Z.mod_small; lia.
Qed.

(** In range the step is: one less, and from 1 to the maximum. *)
Lemma prev_id_eq e :
  1 ≤ e ≤ maxEntityId →
  EM.prev_id e = if decide (e = 1) then maxEntityId else e - 1.
Proof.
  intros He. unfold EM.prev_id. case_decide; [done|].
  unfold wrap32, maxEntityId in *. rewrite Z.mod_small; lia.
Qed.

Lemma scan_S cursor k : scan cursor (S k) = EM.prev_id (scan cursor k).
Proof. done. Qed.

Lemma scan_shift cursor k : scan (EM.prev_id cursor) k = scan cursor (S k).
Proof. unfold scan. by rewrite Nat.iter_succ_r. Qed.

Lemma scan_in_range cursor k :
  1 ≤ cursor ≤ maxEntityId → 1 ≤ scan cursor k ≤ maxEntityId.
Proof.
  intros Hc. induction k as [|k IH]; [done|].
  rewrite scan_S. by apply prev_id_in_range.
Qed.

(** The scan never looks at the invalid id. *)
Lemma scan_valid cursor k :
  1 ≤ cursor ≤ maxEntityId → scan cursor k ≠ InvalidEntity.
Proof. intros Hc. pose proof (scan_in_range cursor k Hc). unfold InvalidEntity. lia. Qed.

(** The scan in closed form: downwards from the cursor, modulo the number of
    valid ids. *)
Lemma scan_closed cursor k :
  1 ≤ cursor ≤ maxEntityId →
  scan cursor k = (cursor - 1 - Z.of_nat k) mod maxEntityId + 1.
Proof.
  intros Hc. pose proof maxEntityId_pos as Hmax. induction k as [|k IH].
  - unfold scan. simpl. rewrite Z.sub_0_r, Z.mod_small; lia.
  - rewrite scan_S, prev_id_eq by (by apply scan_in_range). rewrite IH.
    replace (cursor - 1 - Z.of_nat (S k)) with (cursor - 1 - Z.of_nat k - 1) by lia.
    set (x := cursor - 1 - Z.of_nat k).
    pose proof (Z.mod_pos_bound x maxEntityId ltac:(lia)) as Hx.
    case_decide as Hd.
    + assert (Hx0 : x mod maxEntityId = 0) by lia.
      rewrite <- (Z.mod_add (x - 1) 1 maxEntityId) by lia.
      replace (x - 1 + 1 * maxEntityId) with (x + (maxEntityId - 1)) by lia.
      rewrite Z.add_mod, Hx0 by lia.
      rewrite Z.add_0_l, Z.mod_mod, Z.mod_small by lia. lia.
    + rewrite <- Zminus_mod_idemp_l.
      rewrite (Z.mod_small (x mod maxEntityId - 1)) by lia. lia.
Qed.

(** Every valid id is met within the first [max] positions. *)
Lemma scan_reaches cursor e :
  1 ≤ cursor ≤ maxEntityId → 1 ≤ e ≤ maxEntityId →
  ∃ k, (k < Z.to_nat maxEntityId)%nat ∧ scan cursor k = e.
Proof.
  intros Hc He. pose proof maxEntityId_pos as Hmax.
  pose proof (Z.mod_pos_bound (cursor - e) maxEntityId ltac:(lia)) as Hk.
  exists (Z.to_nat ((cursor - e) mod maxEntityId)). split; [lia|].
  rewrite scan_closed by done. rewrite Z2Nat.id by lia.
  rewrite Zminus_mod_idemp_r.
  replace (cursor - 1 - (cursor - e)) with (e - 1) by lia.
  rewrite Z.mod_small; lia.
Qed.

(** The loop returns the id at the first available position, when the fuel
    reaches that far. *)
Lemma find_available_first entities cursor k fuel :
  first_available entities cursor k → (k < fuel)%nat →
  EM.find_available fuel entities cursor = Some (scan cursor k).
Proof.
  revert cursor fuel. induction k as [|k IH]; intros cursor fuel [Hk Hlt] Hf;
    (destruct fuel as [|fuel]; [lia|]); cbn [EM.find_available].
  - unfold scan in Hk. simpl in Hk. by rewrite Hk.
  - destruct (Hlt 0%nat ltac:(lia)) as [cm Hc]. unfold scan in Hc. simpl in Hc.
    rewrite Hc. rewrite <- scan_shift. apply IH; [|lia]. split.
    + by rewrite scan_shift.
    + intros j Hj. rewrite scan_shift. apply Hlt. lia.
Qed.

(** Conversely, whatever the loop returns is the id at the first available
    position. *)
Lemma find_available_Some entities cursor fuel e :
  EM.find_available fuel entities cursor = Some e →
  ∃ k, (k < fuel)%nat ∧ e = scan cursor k ∧ first_available entities cursor k.
Proof.
  revert cursor. induction fuel as [|fuel IH]; intros cursor; simpl; [done|].
  destruct (entities !! cursor) as [cm|] eqn:Hc.
  - intros Hf. destruct (IH _ Hf) as (k & Hk & -> & Hav & Hlt).
    exists (S k). split; [lia|]. split; [by rewrite scan_shift|]. split.
    + by rewrite <- scan_shift.
    + intros [|j] Hj; [by exists cm|]. rewrite <- scan_shift. apply Hlt. lia.
  - intros [= <-]. exists 0%nat. split; [lia|]. split; [done|]. split; [done|].
    intros j Hj. lia.
Qed.

(** An available id somewhere ahead gives a first one no further away. *)
Lemma first_available_exists entities cursor k0 :
  entities !! scan cursor k0 = None →
  ∃ k, (k ≤ k0)%nat ∧ first_available entities cursor k.
Proof.
  revert cursor. induction k0 as [|k0 IH]; intros cursor Hk0.
  - exists 0%nat. split; [done|]. split; [done|]. intros j Hj. lia.
  - destruct (entities !! cursor) as [cm|] eqn:Hc.
    + rewrite <- scan_shift in Hk0. destruct (IH _ Hk0) as (k & Hk & Hav & Hlt).
      exists (S k). split; [lia|]. split.
      * by rewrite <- scan_shift.
      * intros [|j] Hj; [by exists cm|]. rewrite <- scan_shift. apply Hlt. lia.
    + exists 0%nat. split; [lia|]. split; [done|]. intros j Hj. lia.
Qed.
End allocation.

Section allocation_count.
Implicit Types (s : EntityManager) (e : EntityId) (entities : Entities).

(** With all keys valid, the table holds [max] entities exactly when every
    valid id is a key. *)
Lemma size_max_iff_full entities :
  (∀ e, is_Some (entities !! e) → 1 ≤ e ≤ maxEntityId) →
  Z.of_nat (size entities) = maxEntityId
  ↔ ∀ e, 1 ≤ e ≤ maxEntityId → is_Some (entities !! e).
Proof.
  intros Hrange. pose proof maxEntityId_pos as Hmax.
  pose (U := (list_to_set (seqZ 1 maxEntityId) : gset Z)).
  assert (HU : ∀ e, e ∈ U ↔ 1 ≤ e ≤ maxEntityId).
  { intros e. unfold U. rewrite elem_of_list_to_set, elem_of_seqZ. lia. }
  assert (HsU : size U = Z.to_nat maxEntityId).
  { unfold U. rewrite size_list_to_set by apply NoDup_seqZ. apply length_seqZ. }
  assert (Hsub : dom entities ⊆ U).
  { intros e He. apply HU, Hrange. by apply elem_of_dom. }
  clearbody U. rewrite <- size_dom. split.
  - intros Hsz e He. apply elem_of_dom.
    rewrite (set_subseteq_size_eq (dom entities) U); [by apply HU|done|lia].
  - intros Hfull. assert (dom entities = U) as ->; [|lia].
    apply set_eq. intros e. split; [apply Hsub|].
    intros He. apply elem_of_dom, Hfull. by apply HU.
Qed.

Lemma sub_mod_inj (c a b m : Z) :
  0 ≤ a < m → 0 ≤ b < m → (c - a) mod m = (c - b) mod m → a = b.
Proof.
  intros Ha Hb Hmod.
  assert (Hd : (a - b) mod m = 0).
  { replace (a - b) with ((c - b) - (c - a)) by lia.
    rewrite Zminus_mod, Hmod, Z.sub_diag. apply Z.mod_0_l. lia. }
  apply Z.mod_divide in Hd as [q Hq]; [|lia]. clear Hmod.
  assert (q = 0) by nia. lia.
Qed.

(** The positions of the scan that come before the first available one are
    distinct live ids, so there are no more of them than entities. *)
Lemma first_available_bound entities cursor k :
  1 ≤ cursor ≤ maxEntityId → (k ≤ Z.to_nat maxEntityId)%nat →
  first_available entities cursor k → (k ≤ size entities)%nat.
Proof.
  intros Hc Hk [_ Hlt]. pose proof maxEntityId_pos as Hmax.
  pose (l := scan cursor <$> seq 0 k).
  assert (Hnd : NoDup l).
  { unfold l. apply NoDup_fmap_2_strong; [|apply NoDup_seq].
    intros i j Hi Hj Heq. apply elem_of_seq in Hi, Hj.
    rewrite !scan_closed in Heq by done.
    apply Z.add_cancel_r in Heq. rename Heq into Hmod.
    apply Nat2Z.inj, (sub_mod_inj (cursor - 1) _ _ maxEntityId); [| |done];
      clear -Hi Hj Hk Hmax; lia. }
  assert (Hsub : (list_to_set l : gset Z) ⊆ dom entities).
  { intros e He. apply elem_of_list_to_set in He. unfold l in He.
    apply list_elem_of_fmap in He as (j & -> & Hj). apply elem_of_seq in Hj.
    apply elem_of_dom, Hlt. lia. }
  apply subseteq_size in Hsub. rewrite size_list_to_set, size_dom in Hsub by done.
  unfold l in Hsub. by rewrite length_fmap, length_seq in Hsub.
Qed.

(** *** createEntity *)

Lemma createEntity_full fuel s :
  Z.of_nat (size (m_entities s)) = maxEntityId →
  EM.createEntity fuel s = Some (InvalidEntity, s).
Proof. intros Hsz. unfold EM.createEntity. by rewrite decide_True. Qed.

Lemma createEntity_first fuel s k :
  Z.of_nat (size (m_entities s)) ≠ maxEntityId →
  first_available (m_entities s) (m_nextEntityId s) k → (k < fuel)%nat →
  EM.createEntity fuel s
  = Some (scan (m_nextEntityId s) k, created (scan (m_nextEntityId s) k) s).
Proof.
  intros Hsz Hav Hk. unfold EM.createEntity. rewrite decide_False by done.
  rewrite (find_available_first _ _ k) by done.
  destruct Hav as [Hav _]. by rewrite (map_insert_new_None _ _ _ Hav).
Qed.

(** Whatever [createEntity] returns, it is one of these two outcomes. *)
Lemma createEntity_Some fuel s e s' :
  EM.createEntity fuel s = Some (e, s') →
  (Z.of_nat (size (m_entities s)) = maxEntityId ∧ e = InvalidEntity ∧ s' = s)
  ∨ (Z.of_nat (size (m_entities s)) ≠ maxEntityId
     ∧ ∃ k, (k < fuel)%nat ∧ first_available (m_entities s) (m_nextEntityId s) k
            ∧ e = scan (m_nextEntityId s) k ∧ s' = created e s).
Proof.
  unfold EM.createEntity. case_decide as Hsz.
  - intros [= <- <-]. by left.
  - destruct (EM.find_available _ _ _) as [e0|] eqn:Hf; [|done].
    apply find_available_Some in Hf as (k & Hk & -> & Hav).
    pose proof Hav as [Hnone _]. rewrite (map_insert_new_None _ _ _ Hnone). simpl.
    intros [= <- <-]. right. split; [done|]. by exists k.
Qed.

(** In a state with ids in range, [createEntity] returns: there is a first
    available position unless the table is full, and it lies within the
    first [size + 1] positions. *)
Lemma createEntity_total s :
  ids_in_range s →
  Z.of_nat (size (m_entities s)) ≠ maxEntityId →
  ∃ k, (k ≤ size (m_entities s))%nat
       ∧ first_available (m_entities s) (m_nextEntityId s) k.
Proof.
  intros [Hlive Hcur] Hsz. pose proof maxEntityId_pos as Hmax.
  destruct (set_choose_or_empty ((list_to_set (seqZ 1 maxEntityId) : gset Z)
                                   ∖ dom (m_entities s))) as [[e He]|Hno].
  - apply elem_of_difference in He as [He Hdead].
    rewrite elem_of_list_to_set, elem_of_seqZ in He.
    apply not_elem_of_dom in Hdead.
    destruct (scan_reaches (m_nextEntityId s) e) as (k0 & Hk0 & Hscan); [done|lia|].
    rewrite <- Hscan in Hdead.
    destruct (first_available_exists _ _ _ Hdead) as (k & Hk & Hav).
    exists k. split; [|done].
    apply (first_available_bound _ (m_nextEntityId s)); [done|lia|done].
  - exfalso. apply Hsz. apply size_max_iff_full; [done|].
    intros e He. apply elem_of_dom.
    destruct (decide (e ∈ dom (m_entities s))) as [|Hdead]; [done|].
    exfalso. apply (not_elem_of_empty (C := gset Z) e). rewrite <- Hno.
    apply elem_of_difference. split; [|done].
    rewrite elem_of_list_to_set, elem_of_seqZ. lia.
Qed.
End allocation_count.

(** ** The invariant of the manager *)

Section invariant.
Implicit Types (s : EntityManager) (e : EntityId) (T : type_index).

Lemma invariant_new : invariant EntityManager_new.
Proof.
  pose proof maxEntityId_pos. split_and!.
  - intros e T. unfold entity_entry, index_entry. simpl.
    by rewrite !lookup2_empty.
  - split; simpl; [|lia]. intros e [cm Hcm]. simpl in Hcm.
    by rewrite lookup_empty in Hcm.
  - intros e T p. unfold entity_entry. simpl. by rewrite lookup2_empty.
Qed.

Lemma live_insert s e cm e' :
  is_Some (<[e := cm]> (m_entities s) !! e') ↔ e' = e ∨ live s e'.
Proof.
  unfold live. rewrite lookup_insert. case_decide; subst.
  - split; [by left|by eexists].
  - split; [by right|]. by intros [|].
Qed.

(** *** createEntity *)

Lemma created_entity_entry e s e' T' :
  m_entities s !! e = None →
  entity_entry (created e s) e' T' = entity_entry s e' T'.
Proof. intros He. unfold entity_entry, created. simpl. by apply lookup2_insert_fresh. Qed.

Lemma created_live e s e' : live (created e s) e' ↔ e' = e ∨ live s e'.
Proof. unfold live at 1, created. simpl. apply live_insert. Qed.

Lemma invariant_created e s :
  invariant s → m_entities s !! e = None → 1 ≤ e ≤ maxEntityId →
  invariant (created e s).
Proof.
  intros (Hcons & [Hlive Hcur] & Hty) He Hr. split_and!.
  - intros e' T'. rewrite created_entity_entry by done. apply Hcons.
  - split.
    + intros e' [->|Hl]%created_live; [done|by apply Hlive].
    + simpl. by apply prev_id_in_range.
  - intros e' T' p. rewrite created_entity_entry by done. apply Hty.
Qed.

Lemma invariant_createEntity fuel s e s' :
  invariant s → EM.createEntity fuel s = Some (e, s') → invariant s'.
Proof.
  intros Hinv [(_ & _ & ->)|(_ & k & _ & [Hav _] & -> & ->)]%createEntity_Some;
    [done|].
  apply invariant_created; [done..|]. apply scan_in_range, Hinv.
Qed.

(** *** destroyEntity, destroyAllEntities *)

Lemma invariant_destroyEntity e s :
  invariant s →
  ∃ b s', EM.destroyEntity e s = Ok b s' ∧ invariant s'
    ∧ (b = true ↔ live s e)
    ∧ (∀ e', live s' e' ↔ live s e' ∧ e' ≠ e)
    ∧ m_entitiesMarkedForRemoval s' = m_entitiesMarkedForRemoval s
    ∧ m_nextEntityId s' = m_nextEntityId s.
Proof.
  intros (Hcons & [Hlive Hcur] & Hty).
  destruct (m_entities s !! e) as [cm|] eqn:He.
  - destruct (destroyEntity_live e s Hcons) as (s' & -> & Hm & Hmk & Hnx & Hidx);
      [by exists cm|].
    assert (Hl : ∀ e', live s' e' ↔ live s e' ∧ e' ≠ e).
    { intros e'. unfold live. rewrite Hm, lookup_delete. case_decide; subst.
      - split; [by intros [? ?]|by intros [_ ?]].
      - split; [done|by intros [? _]]. }
    exists true, s'. split; [done|]. split; [split; [|split]|].
    + intros e' T'. rewrite (destroyEntity_entity_entry e s) by done.
      rewrite Hidx. case_decide; [done|apply Hcons].
    + split; [|by rewrite Hnx]. intros e' [Hl' _]%Hl. by apply Hlive.
    + intros e' T' p. rewrite (destroyEntity_entity_entry e s) by done.
      case_decide; [done|apply Hty].
    + split_and!; try done. split; [by exists cm|done].
  - rewrite (destroyEntity_unknown _ _ He). exists false, s.
    split; [done|]. split; [done|]. split_and!; try done.
    + split; [done|]. intros [cm Hcm]. congruence.
    + intros e'. split; [|by intros [? _]]. intros Hl. split; [done|].
      intros ->. destruct Hl as [cm Hcm]. congruence.
Qed.

Lemma invariant_destroyAllEntities s :
  invariant s → invariant (state_of (EM.destroyAllEntities s)).
Proof.
  intros (_ & [_ Hcur] & _). simpl. split_and!.
  - intros e T. unfold entity_entry, index_entry. simpl.
    by rewrite !lookup2_empty.
  - split; [|done]. intros e [cm Hcm]. simpl in Hcm.
    by rewrite lookup_empty in Hcm.
  - intros e T p. unfold entity_entry. simpl. by rewrite lookup2_empty.
Qed.

(** *** attachComponent, detachComponent *)

Lemma attached_live e c s e' : live s e → live (attached e c s) e' ↔ live s e'.
Proof.
  intros Hl. unfold live at 1, attached. simpl. rewrite live_insert.
  split; [by intros [->|]|by right].
Qed.

Lemma invariant_attached e c s :
  invariant s → live s e → entity_entry s e (typeid c) = None →
  invariant (attached e c s).
Proof.
  intros (Hcons & [Hlive Hcur] & Hty) Hl Hfree. split_and!.
  - intros e' T'. rewrite attached_entity_entry, attached_index_entry by done.
    rewrite <- Hcons, Hfree. simpl.
    destruct (decide (e' = e ∧ T' = typeid c)) as [[-> ->]|Hd].
    + by rewrite decide_True.
    + rewrite decide_False by tauto. apply Hcons.
  - split; [|done]. intros e' Hl'%attached_live; [by apply Hlive|done].
  - intros e' T' p. rewrite attached_entity_entry by done.
    case_decide as Hd; [|apply Hty]. destruct Hd as [-> ->]. intros [= <-]. by exists c.
Qed.

Lemma invariant_attachComponent e p s :
  invariant s →
  ∃ b, EM.attachComponent e p s = Ok b (state_of (EM.attachComponent e p s))
    ∧ invariant (state_of (EM.attachComponent e p s))
    ∧ (∀ e', live (state_of (EM.attachComponent e p s)) e' ↔ live s e').
Proof.
  intros Hinv. destruct (attachComponent_cases e p s) as [->|(c & -> & Hl & Hf & ->)].
  - by exists false.
  - exists true. split_and!; [done|by apply invariant_attached|].
    intros e'. by apply attached_live.
Qed.

Lemma detached_live T e s e' : live s e → live (detached T e s) e' ↔ live s e'.
Proof.
  intros Hl. unfold live at 1, detached. simpl. rewrite live_insert.
  split; [by intros [->|]|by right].
Qed.

Lemma index_entry_slot s T e :
  is_Some (index_entry s T e) → is_Some (m_componentTypes s !! T).
Proof. intros [q (enNodes & Hc & _)%lookup2_Some]. by exists enNodes. Qed.

Lemma entity_entry_live s e T : is_Some (entity_entry s e T) → live s e.
Proof. intros [q (cm & Hc & _)%lookup2_Some]. by exists cm. Qed.

Lemma invariant_detached T e s :
  invariant s → is_Some (entity_entry s e T) → invariant (detached T e s).
Proof.
  intros (Hcons & [Hlive Hcur] & Hty) Hent.
  pose proof (entity_entry_live _ _ _ Hent) as Hl.
  assert (Hslot : is_Some (m_componentTypes s !! T)).
  { apply (index_entry_slot s T e). by rewrite <- Hcons. }
  split_and!.
  - intros e' T'. rewrite detached_entity_entry, detached_index_entry by done.
    destruct (decide (e' = e ∧ T' = T)) as [[-> ->]|Hd].
    + by rewrite decide_True.
    + rewrite decide_False by tauto. apply Hcons.
  - split; [|done]. intros e' Hl'%detached_live; [by apply Hlive|done].
  - intros e' T' p. rewrite detached_entity_entry by done.
    case_decide; [done|apply Hty].
Qed.

(** In a consistent state [detachComponent] does not throw: it returns
    [true] and erases both nodes, or returns [false] and changes nothing. *)
Lemma detachComponent_cases T e s :
  consistent s →
  (entity_entry s e T = None ∧ EM.detachComponent T e s = Ok false s)
  ∨ (is_Some (entity_entry s e T)
     ∧ EM.detachComponent T e s = Ok true (detached T e s)).
Proof.
  intros Hcons. destruct (entity_entry s e T) as [q|] eqn:Hq.
  - right. split; [done|]. apply detachComponent_present.
    + by rewrite Hq.
    + by rewrite <- Hcons, Hq.
  - left. split; [done|]. by apply detachComponent_missing.
Qed.

Lemma invariant_detachComponent T e s :
  invariant s →
  ∃ b, EM.detachComponent T e s = Ok b (state_of (EM.detachComponent T e s))
    ∧ invariant (state_of (EM.detachComponent T e s))
    ∧ (∀ e', live (state_of (EM.detachComponent T e s)) e' ↔ live s e').
Proof.
  intros Hinv. pose proof Hinv as (Hcons & _).
  destruct (detachComponent_cases T e s Hcons) as [[_ ->]|[Hent ->]].
  - by exists false.
  - exists true. split_and!; [done|by apply invariant_detached|].
    intros e'. apply detached_live. by apply (entity_entry_live _ _ T).
Qed.
End invariant.

Section invariant_steps.
Implicit Types (s : EntityManager) (e : EntityId) (T : type_index).

(** *** getEntityNodes, markForRemoval, purge *)

Lemma invariant_same_tables s s' :
  (∀ e T, entity_entry s' e T = entity_entry s e T) →
  (∀ T e, index_entry s' T e = index_entry s T e) →
  (∀ e, live s' e ↔ live s e) →
  m_nextEntityId s' = m_nextEntityId s →
  invariant s → invariant s'.
Proof.
  intros Hent Hidx Hl Hnx (Hcons & [Hlive Hcur] & Hty). split; [|split].
  - intros e T. rewrite Hent, Hidx. apply Hcons.
  - split; [|by rewrite Hnx]. intros e He%Hl. by apply Hlive.
  - intros e T p. rewrite Hent. apply Hty.
Qed.

Lemma invariant_getEntityNodes T s :
  invariant s →
  ∃ enNodes s', EM.getEntityNodes T s = Ok (Some enNodes) s'
    ∧ invariant s' ∧ m_entities s' = m_entities s.
Proof.
  intros Hinv.
  destruct (getEntityNodes_spec T s) as (enNodes & s' & -> & _ & _ & Hidx & Hm & _ & Hnx).
  exists enNodes, s'. split; [done|]. split; [|done].
  apply (invariant_same_tables s); try done.
  - intros e T'. unfold entity_entry. by rewrite Hm.
  - intros e. unfold live. by rewrite Hm.
Qed.

Lemma markForRemoval_tables e s :
  m_entities (EM.markForRemoval e s) = m_entities s
  ∧ m_componentTypes (EM.markForRemoval e s) = m_componentTypes s
  ∧ m_nextEntityId (EM.markForRemoval e s) = m_nextEntityId s.
Proof. unfold EM.markForRemoval. by destruct (m_entities s !! e). Qed.

Lemma invariant_markForRemoval e s :
  invariant s → invariant (EM.markForRemoval e s).
Proof.
  destruct (markForRemoval_tables e s) as (Hm & Hc & Hnx).
  apply invariant_same_tables; try done.
  - intros e' T. unfold entity_entry. by rewrite Hm.
  - intros T e'. unfold index_entry. by rewrite Hc.
  - intros e'. unfold live. by rewrite Hm.
Qed.

Lemma invariant_purge_loop marked s :
  invariant s →
  ∃ s', EM.purge_loop marked s = Ok tt s' ∧ invariant s'
    ∧ (∀ e, live s' e ↔ live s e ∧ e ∉ marked)
    ∧ m_entitiesMarkedForRemoval s' = m_entitiesMarkedForRemoval s
    ∧ m_nextEntityId s' = m_nextEntityId s.
Proof.
  revert s. induction marked as [|e marked IH]; intros s Hinv; simpl.
  - exists s. split_and!; try done. intros e. split; [|by intros [? _]].
    intros Hl. split; [done|]. apply not_elem_of_nil.
  - destruct (invariant_destroyEntity e s Hinv)
      as (b & s1 & -> & Hinv1 & _ & Hl1 & Hmk1 & Hnx1).
    destruct (IH s1 Hinv1) as (s' & -> & Hinv' & Hl' & Hmk' & Hnx').
    exists s'. split; [done|]. split; [done|]. split_and!; try congruence.
    intros e'. rewrite Hl', Hl1, not_elem_of_cons. tauto.
Qed.

Lemma invariant_purge s :
  invariant s →
  ∃ s', EM.purge s = Ok tt s' ∧ invariant s'
    ∧ (∀ e, live s' e ↔ live s e ∧ e ∉ m_entitiesMarkedForRemoval s)
    ∧ m_entitiesMarkedForRemoval s' = m_entitiesMarkedForRemoval s.
Proof.
  intros Hinv. unfold EM.purge.
  destruct (invariant_purge_loop (m_entitiesMarkedForRemoval s) s Hinv)
    as (s' & -> & ? & ? & ? & _).
  by exists s'.
Qed.

(** *** Every call *)

(** From a state that satisfies the invariant no call throws, and the
    invariant holds again when the call returns. *)
Lemma call_invariant fuel op s r :
  invariant s → call fuel op s = Some r →
  ∃ v s', r = Ok v s' ∧ invariant s' ∧ live_effect op v s s'.
Proof.
  intros Hinv. destruct op as [|e| |e p|T e|T e|T|e|]; simpl.
  - destruct (EM.createEntity fuel s) as [[e s']|] eqn:Hc; [|done].
    intros [= <-]. exists (VId e), s'. split; [done|].
    split; [by apply (invariant_createEntity fuel s e)|].
    exists e. split; [done|].
    destruct (createEntity_Some _ _ _ _ Hc)
      as [(Hsz & -> & ->)|(Hsz & k & _ & [Hav _] & -> & ->)]; [by left|right].
    split; [apply scan_in_range, Hinv|]. split; [|done].
    intros [cm Hcm]. congruence.
  - destruct (invariant_destroyEntity e s Hinv) as (b & s' & -> & ? & ? & ? & _).
    intros [= <-]. exists (VBool b), s'. split_and!; try done. by exists b.
  - intros [= <-]. eexists _, _. split; [done|].
    split; [by apply (invariant_destroyAllEntities s)|].
    intros e' [cm Hcm]. simpl in Hcm. by rewrite lookup_empty in Hcm.
  - destruct (invariant_attachComponent e p s Hinv) as (b & Hr & ? & ?).
    rewrite Hr. intros [= <-]. by eexists _, _.
  - destruct (invariant_detachComponent T e s Hinv) as (b & Hr & ? & ?).
    rewrite Hr. intros [= <-]. by eexists _, _.
  - intros [= <-]. by eexists _, _.
  - destruct (invariant_getEntityNodes T s Hinv) as (enNodes & s' & -> & ? & Hm).
    intros [= <-]. eexists _, _. split_and!; try done.
    intros e'. unfold live. by rewrite Hm.
  - intros [= <-]. eexists _, _. split; [done|].
    split; [by apply invariant_markForRemoval|].
    intros e'. unfold live. by destruct (markForRemoval_tables e s) as (-> & _).
  - destruct (invariant_purge s Hinv) as (s' & -> & ? & ? & _).
    intros [= <-]. by eexists _, _.
Qed.

Lemma run_invariant s tr s' : invariant s → run s tr s' → invariant s'.
Proof.
  intros Hinv Hrun. induction Hrun as [s|s op r tr s' [fuel Hcall] Hrun IH];
    [done|].
  apply IH. by destruct (call_invariant fuel op s r Hinv Hcall) as (v & s1 & -> & ? & _).
Qed.

Lemma reachable_invariant s : reachable s → invariant s.
Proof. intros [tr Hrun]. apply (run_invariant _ _ _ invariant_new Hrun). Qed.

Lemma reachable_new : reachable EntityManager_new.
Proof. exists []. constructor. Qed.

Lemma reachable_run s tr s' : reachable s → run s tr s' → reachable s'.
Proof.
  intros [tr0 Hrun0] Hrun. exists (tr0 ++ tr).
  induction Hrun0 as [s0|s0 op r tr0 s1 Hcall Hrun0 IH]; simpl; [done|].
  econstructor; [done|]. by apply IH.
Qed.

Lemma reachable_call fuel op s r :
  reachable s → call fuel op s = Some r → reachable (state_of r).
Proof.
  intros Hs Hcall. apply (reachable_run s [(op, r)]); [done|].
  econstructor; [by exists fuel|constructor].
Qed.
End invariant_steps.

(** ** Liveness along a history *)

Section histories.
Implicit Types (s : EntityManager) (e : EntityId) (tr : list (Op * Result Value)).

Lemma no_destroy_cons op r tr :
  no_destroy ((op, r) :: tr) → destroys op = false ∧ no_destroy tr.
Proof.
  intros Hnd. split.
  - apply (Hnd op r). left.
  - intros op' r' Hin. apply (Hnd op' r'). by right.
Qed.

Lemma live_dec s e : live s e ∨ m_entities s !! e = None.
Proof. unfold live. destruct (m_entities s !! e); [left; by eexists|by right]. Qed.

Lemma not_live_None s e : ¬ live s e ↔ m_entities s !! e = None.
Proof.
  unfold live. split.
  - intros Hn. destruct (m_entities s !! e) eqn:E; [|done]. exfalso. apply Hn. by eexists.
  - intros -> [? ?]. done.
Qed.

Lemma same_live_size s s' :
  (∀ e, live s' e ↔ live s e) → size (m_entities s') = size (m_entities s).
Proof.
  intros Hl. rewrite <- !size_dom. f_equal. apply set_eq. intros e.
  rewrite !elem_of_dom. apply Hl.
Qed.

Lemma created_size e s :
  ¬ live s e → size (m_entities (created e s)) = S (size (m_entities s)).
Proof. intros He%not_live_None. unfold created. simpl. by apply map_size_insert_None. Qed.

(** A live entity stays live as long as nothing is destroyed. *)
Lemma run_live s tr s' e :
  invariant s → run s tr s' → no_destroy tr → live s e → live s' e.
Proof.
  intros Hinv Hrun. induction Hrun as [s|s op r tr s' [fuel Hcall] Hrun IH];
    [done|].
  intros [Hop Hnd]%no_destroy_cons Hl.
  destruct (call_invariant fuel op s r Hinv Hcall) as (v & s1 & -> & Hinv1 & Heff).
  apply IH; [done..|]. simpl.
  destruct op; simpl in *; try done; try by apply Heff.
  destruct Heff as (e0 & _ & [(_ & -> & _)|(_ & _ & -> & _)]); [done|].
  apply created_live. by right.
Qed.

(** An id that is not live stays so until [createEntity] returns it. *)
Lemma run_not_live s tr s' e :
  invariant s → run s tr s' → e ∉ created_ids tr → ¬ live s e → ¬ live s' e.
Proof.
  intros Hinv Hrun. induction Hrun as [s|s op r tr s' [fuel Hcall] Hrun IH];
    [done|].
  intros Hnew Hdead.
  destruct (call_invariant fuel op s r Hinv Hcall) as (v & s1 & -> & Hinv1 & Heff).
  simpl in IH. destruct op; simpl in *;
    try (apply IH; [done..|]; rewrite Heff; tauto).
  - destruct Heff as (e0 & -> & [(_ & -> & _)|(_ & _ & -> & _)]);
      apply not_elem_of_cons in Hnew as [Hne Hnew]; (apply IH; [done..|]);
      [done|].
    intros [?|?]%created_live; done.
  - destruct Heff as (b & -> & _ & Heff). apply IH; [done..|].
    rewrite Heff. tauto.
  - apply IH; [done..|]. apply Heff.
Qed.

(** A live entity stays live along a history that does not destroy it. *)
Lemma run_not_destroyed s tr s' e :
  invariant s → run s tr s' → not_destroyed_in e s tr → live s e → live s' e.
Proof.
  intros Hinv Hrun. induction Hrun as [s|s op r tr s' [fuel Hcall] Hrun IH];
    [done|].
  intros [Hop Hnd] Hl.
  destruct (call_invariant fuel op s r Hinv Hcall) as (v & s1 & -> & Hinv1 & Heff).
  apply IH; [done..|]. simpl.
  destruct op; simpl in *; try done; try by apply Heff.
  - destruct Heff as (e0 & _ & [(_ & -> & _)|(_ & _ & -> & _)]); [done|].
    apply created_live. by right.
  - destruct Heff as (b & _ & _ & Heff). apply Heff. split; [done|]. congruence.
Qed.

(** A new manager has no live entity. *)
Lemma new_not_live e : ¬ live EntityManager_new e.
Proof. intros [cm Hcm]. simpl in Hcm. by rewrite lookup_empty in Hcm. Qed.

(** [destroyEntity] on a state of the manager: [true] for a live id, which
    is dead afterwards, and [false] with no change otherwise. *)
Lemma destroyEntity_reachable s e :
  invariant s →
  (live s e ∧ ∃ s', EM.destroyEntity e s = Ok true s' ∧ invariant s' ∧ ¬ live s' e)
  ∨ (¬ live s e ∧ EM.destroyEntity e s = Ok false s).
Proof.
  intros Hinv. destruct (live_dec s e) as [Hl|Hd].
  - left. split; [done|].
    destruct (invariant_destroyEntity e s Hinv) as (b & s' & Hd & Hinv' & Hb & Hl' & _).
    exists s'. assert (b = true) as -> by by apply Hb.
    split_and!; [done..|]. rewrite Hl'. tauto.
  - right. split; [by apply not_live_None|]. by apply destroyEntity_unknown.
Qed.
End histories.

(** ** The small history *)

Lemma demo_create_s1 : EM.createEntity 1 EntityManager_new = Some (maxEntityId, Demo.s1).
Proof. vm_compute. reflexivity. Qed.

Lemma demo_attach_s2 : EM.attachComponent maxEntityId (Some Demo.position) Demo.s1 = Ok true Demo.s2.
Proof. vm_compute. reflexivity. Qed.

Lemma demo_reachable_s1 : reachable Demo.s1.
Proof.
  apply (reachable_call 1 OpCreateEntity EntityManager_new (Ok (VId maxEntityId) Demo.s1)).
  - apply reachable_new.
  - simpl. by rewrite demo_create_s1.
Qed.

Lemma demo_reachable_s2 : reachable Demo.s2.
Proof.
  apply (reachable_call 0 (OpAttachComponent maxEntityId (Some Demo.position)) Demo.s1
           (Ok (VBool true) Demo.s2)).
  - apply demo_reachable_s1.
  - simpl. by rewrite demo_attach_s2.
Qed.

Lemma demo_create_s4 : EM.createEntity 2 Demo.s2 = Some (maxEntityId - 1, Demo.s4).
Proof. vm_compute. reflexivity. Qed.

Lemma demo_run_history : run EntityManager_new Demo.history Demo.s4.
Proof.
  unfold Demo.history. econstructor; [exists 1%nat; simpl; by rewrite demo_create_s1|].
  econstructor; [exists 0%nat; simpl; by rewrite demo_attach_s2|].
  econstructor; [exists 2%nat; simpl; by rewrite demo_create_s4|].
  constructor.
Qed.

Lemma demo_no_destroy_history : no_destroy Demo.history.
Proof.
  intros op r Hin. unfold Demo.history in Hin.
  repeat (apply elem_of_cons in Hin as [[= -> _]|Hin]; [done|]).
  by apply elem_of_nil in Hin.
Qed.

Lemma demo_create_s5 : EM.createEntity 1 Demo.s1 = Some (maxEntityId - 1, Demo.s5).
Proof. vm_compute. reflexivity. Qed.

Lemma demo_destroy_s6 : EM.destroyEntity (maxEntityId - 1) Demo.s5 = Ok true Demo.s6.
Proof. vm_compute. reflexivity. Qed.

Lemma demo_reachable_s3 : reachable Demo.s3.
Proof.
  apply (reachable_call 0 (OpMarkForRemoval maxEntityId) Demo.s2 (Ok VVoid Demo.s3)).
  - apply demo_reachable_s2.
  - done.
Qed.

(** ** Deferred removal *)

(** C1. The specification has the list of ids marked for removal empty after
    every [purge]. The code does not do that: on the manager with one entity
    (id [2^32 - 1]) that has been marked, [purge] destroys the entity and
    returns, and the list still holds the id; a second [purge] goes through
    the same id again and leaves the same state. ([purge_keeps_marked] is
    the general fact.) *)
Theorem purge_leaves_marked_list :
  ∃ s', EM.purge Demo.s3 = Ok tt s'
    ∧ ¬ live s' maxEntityId
    ∧ m_entitiesMarkedForRemoval s' = [maxEntityId]
    ∧ EM.purge s' = Ok tt s'.
Proof.
  eexists. split; [vm_compute; reflexivity|]. split_and!.
  - intros [cm Hcm]. vm_compute in Hcm. discriminate.
  - vm_compute. reflexivity.
  - vm_compute. reflexivity.
Qed.

(** ** The two tables *)

(** C2. In every state reached from a new manager through the public
    operations, [m_entities[e][T]] holds a pointer [p] exactly when
    [m_componentTypes[T][e]] holds the same pointer [p]: the two entries exist
    together, neither without the other, and refer to the same component,
    which is a non-null pointer to an object of dynamic type [T]. *)
Theorem dual_table_consistency (s : EntityManager) :
  reachable s →
  ∀ (e : EntityId) (T : type_index) (p : shared_ptr Component),
    ((∃ cmNodes, m_entities s !! e = Some cmNodes ∧ cmNodes !! T = Some p)
     ↔ (∃ enNodes, m_componentTypes s !! T = Some enNodes ∧ enNodes !! e = Some p))
    ∧ ((∃ cmNodes, m_entities s !! e = Some cmNodes ∧ cmNodes !! T = Some p) →
       ∃ c, p = Some c ∧ typeid c = T).
Proof.
  intros (Hcons & _ & Hty)%reachable_invariant e T p.
  rewrite <- !lookup2_Some. fold (entity_entry s e T) (index_entry s T e).
  split; [by rewrite Hcons|apply Hty].
Qed.

Lemma dual_table_consistency_witness :
  reachable Demo.s2
  ∧ ((∃ cmNodes, m_entities Demo.s2 !! maxEntityId = Some cmNodes
                 ∧ cmNodes !! "Position" = Some (Some Demo.position))
     ↔ (∃ enNodes, m_componentTypes Demo.s2 !! "Position" = Some enNodes
                   ∧ enNodes !! maxEntityId = Some (Some Demo.position))).
Proof.
  split; [exact demo_reachable_s2|].
  exact (proj1 (dual_table_consistency Demo.s2 demo_reachable_s2
                  maxEntityId "Position" (Some Demo.position))).
Defined.

(** ** Identifiers *)

(** The step of the induction for a call that leaves the live ids alone. *)
Local Ltac unchanged_live_step :=
  match goal with
  | IH : _ → NoDup _ ∧ _, Heff : ∀ e', live ?s1 e' ↔ live ?s e',
    Hsz : Z.of_nat _ ≤ _ |- _ =>
      simpl in Hsz |- *;
      destruct IH as [? IHall]; [by rewrite (same_live_size s s1)|];
      split; [done|];
      let e := fresh "e" in let He := fresh "He" in
      intros e He; destruct (IHall e He) as [? ?];
      split; [done|]; by rewrite <- Heff
  end.

(** C3. Take any state of a manager and any history from it that calls
    neither [destroyEntity] nor [destroyAllEntities] (nor [purge], which calls
    [destroyEntity]), and in which the entities already live plus the
    [createEntity] calls do not exceed the [2^32 - 1] valid ids. Then the ids
    its [createEntity] calls return are pairwise distinct, and none is the
    invalid id 0. *)
Theorem createEntity_ids_distinct (s s' : EntityManager)
    (tr : list (Op * Result Value)) :
  reachable s → run s tr s' → no_destroy tr →
  Z.of_nat (size (m_entities s) + length (created_ids tr)) ≤ maxEntityId →
  NoDup (created_ids tr) ∧ ∀ e, e ∈ created_ids tr → e ≠ InvalidEntity.
Proof.
  intros Hinv%reachable_invariant Hrun Hnd Hsz.
  cut (NoDup (created_ids tr)
       ∧ ∀ e, e ∈ created_ids tr → e ≠ InvalidEntity ∧ ¬ live s e).
  { intros [? Hall]. split; [done|]. intros e He. by apply Hall. }
  induction Hrun as [s|s op r tr s' [fuel Hcall] Hrun IH].
  { split; [constructor|]. intros e He. by apply elem_of_nil in He. }
  apply no_destroy_cons in Hnd as [Hop Hnd].
  destruct (call_invariant fuel op s r Hinv Hcall) as (v & s1 & -> & Hinv1 & Heff).
  simpl in IH. specialize (IH Hinv1 Hnd).
  destruct op; simpl in Hop; try done; simpl in Heff.
  - destruct Heff as (e0 & -> & [(_ & _ & Hfull)|(Hr & Hfresh & -> & _)]);
      simpl in Hsz |- *; [lia|].
    destruct IH as [IHnd IHall]; [rewrite created_size by done; lia|].
    split.
    + constructor; [|done]. intros [_ Hd]%IHall. apply Hd, created_live. by left.
    + intros e [->|He]%elem_of_cons.
      * split; [unfold InvalidEntity; lia|done].
      * destruct (IHall e He) as [? Hd]. split; [done|].
        intros Hl. apply Hd, created_live. by right.
  - unchanged_live_step.
  - unchanged_live_step.
  - unchanged_live_step.
  - unchanged_live_step.
  - unchanged_live_step.
Qed.

Lemma createEntity_ids_distinct_witness :
  run EntityManager_new Demo.history Demo.s4
  ∧ NoDup (created_ids Demo.history)
  ∧ ∀ e, e ∈ created_ids Demo.history → e ≠ InvalidEntity.
Proof.
  split; [exact demo_run_history|].
  apply (createEntity_ids_distinct EntityManager_new Demo.s4 Demo.history).
  - exact reachable_new.
  - exact demo_run_history.
  - exact demo_no_destroy_history.
  - vm_compute. discriminate.
Defined.

(** C4. (1) When [createEntity] has returned a valid id [e] and no call since
    has destroyed [e] (no [destroyEntity e], no [destroyAllEntities], no
    [purge] with [e] marked; calls on other ids, other entities being
    destroyed included, are allowed), [destroyEntity e] returns [true]; from
    then on, whatever is called, [destroyEntity e] returns [false] and changes
    nothing as long as no [createEntity] call has returned [e] again. (2) An
    id that no [createEntity] call of the manager's history has returned
    makes [destroyEntity] return [false]. *)
Theorem destroyEntity_true_exactly_once :
  (∀ (s s1 s2 : EntityManager) (fuel : nat) (e : EntityId)
     (tr : list (Op * Result Value)),
      reachable s → EM.createEntity fuel s = Some (e, s1) → e ≠ InvalidEntity →
      run s1 tr s2 → not_destroyed_in e s1 tr →
      ∃ s3, EM.destroyEntity e s2 = Ok true s3
        ∧ ∀ tr' s4, run s3 tr' s4 → e ∉ created_ids tr' →
                    EM.destroyEntity e s4 = Ok false s4)
  ∧ (∀ (s : EntityManager) (e : EntityId) (tr : list (Op * Result Value)),
      run EntityManager_new tr s → e ∉ created_ids tr →
      EM.destroyEntity e s = Ok false s).
Proof.
  split.
  - intros s s1 s2 fuel e tr Hinv%reachable_invariant Hc Hvalid Hrun Hnd.
    pose proof (invariant_createEntity _ _ _ _ Hinv Hc) as Hinv1.
    pose proof (run_invariant _ _ _ Hinv1 Hrun) as Hinv2.
    assert (Hl1 : live s1 e).
    { destruct (createEntity_Some _ _ _ _ Hc) as [(_ & ? & _)|(_ & k & _ & _ & _ & ->)];
        [done|]. apply created_live. by left. }
    pose proof (run_not_destroyed _ _ _ _ Hinv1 Hrun Hnd Hl1) as Hl2.
    destruct (destroyEntity_reachable s2 e Hinv2)
      as [(_ & s3 & Hd & Hinv3 & Hdead)|[Hn _]]; [|done].
    exists s3. split; [done|]. intros tr' s4 Hrun' Hnew.
    pose proof (run_invariant _ _ _ Hinv3 Hrun') as Hinv4.
    pose proof (run_not_live _ _ _ _ Hinv3 Hrun' Hnew Hdead) as Hdead4.
    by destruct (destroyEntity_reachable s4 e Hinv4) as [[? _]|[_ ?]].
  - intros s e tr Hrun Hnew.
    pose proof (run_invariant _ _ _ invariant_new Hrun) as Hinv.
    pose proof (run_not_live _ _ _ _ invariant_new Hrun Hnew (new_not_live e)) as Hdead.
    by destruct (destroyEntity_reachable s e Hinv) as [[? _]|[_ ?]].
Qed.

(** Create [a], create [b], destroy [b], destroy [a]: the last call returns
    [true], the next [destroyEntity a] returns [false]; and so does
    [destroyEntity 7], 7 never having been created. *)
Lemma destroyEntity_true_exactly_once_witness :
  run Demo.s1
    [(OpCreateEntity, Ok (VId (maxEntityId - 1)) Demo.s5);
     (OpDestroyEntity (maxEntityId - 1), Ok (VBool true) Demo.s6)] Demo.s6
  ∧ ∃ s3, EM.destroyEntity maxEntityId Demo.s6 = Ok true s3
      ∧ EM.destroyEntity maxEntityId s3 = Ok false s3
      ∧ EM.destroyEntity 7 Demo.s2 = Ok false Demo.s2.
Proof.
  assert (Hrun : run Demo.s1
            [(OpCreateEntity, Ok (VId (maxEntityId - 1)) Demo.s5);
             (OpDestroyEntity (maxEntityId - 1), Ok (VBool true) Demo.s6)] Demo.s6).
  { econstructor; [exists 1%nat; simpl; by rewrite demo_create_s5|].
    econstructor; [exists 0%nat; simpl; by rewrite demo_destroy_s6|]. constructor. }
  split; [exact Hrun|].
  destruct destroyEntity_true_exactly_once as [Honce Hnever].
  destruct (Honce EntityManager_new Demo.s1 Demo.s6 1%nat maxEntityId
              [(OpCreateEntity, Ok (VId (maxEntityId - 1)) Demo.s5);
               (OpDestroyEntity (maxEntityId - 1), Ok (VBool true) Demo.s6)])
    as (s3 & Htrue & Hfalse).
  - exact reachable_new.
  - exact demo_create_s1.
  - vm_compute. discriminate.
  - exact Hrun.
  - simpl. split; [exact I|]. split; [|exact I]. vm_compute. discriminate.
  - exists s3. split; [exact Htrue|]. split.
    + apply (Hfalse []); [constructor|]. apply not_elem_of_nil.
    + apply (Hnever Demo.s2 7
               [(OpCreateEntity, Ok (VId maxEntityId) Demo.s1);
                (OpAttachComponent maxEntityId (Some Demo.position),
                 Ok (VBool true) Demo.s2)]).
      * econstructor; [exists 1%nat; simpl; by rewrite demo_create_s1|].
        econstructor; [exists 0%nat; simpl; by rewrite demo_attach_s2|].
        constructor.
      * simpl. intros Hin. apply elem_of_cons in Hin as [Hin|Hin]; [|by apply elem_of_nil in Hin].
        vm_compute in Hin. discriminate.
Defined.

(** ** Components *)

(** C5. In every state, for every id and pointer: [attachComponent] returns
    [true] exactly when the pointer is non-null, the id is live and the entity
    has no component of the pointer's dynamic type; otherwise (unknown id,
    null pointer, or a component of that type already attached) it returns
    [false] and leaves the whole state, so both tables and with them the
    component attached before, as it was. *)
Theorem attachComponent_result (s : EntityManager) (e : EntityId)
    (p : shared_ptr Component) :
  (returned (EM.attachComponent e p s) = Some true
   ↔ ∃ c, p = Some c ∧ live s e ∧ entity_entry s e (typeid c) = None)
  ∧ (¬ live s e ∨ p = nullptr
     ∨ (∃ c, p = Some c ∧ is_Some (entity_entry s e (typeid c))) →
     EM.attachComponent e p s = Ok false s)
  ∧ (returned (EM.attachComponent e p s) = Some true
     ∨ EM.attachComponent e p s = Ok false s).
Proof.
  split; [|split].
  - split.
    + destruct (attachComponent_cases e p s) as [->|(c & -> & ? & ? & _)]; [done|].
      intros _. by exists c.
    + intros (c & -> & Hl & Hf). by rewrite attachComponent_fresh.
  - intros [Hd|[->|(c & -> & Hdup)]].
    + by apply attachComponent_unknown, not_live_None.
    + apply attachComponent_null.
    + by apply attachComponent_duplicate.
  - destruct (attachComponent_cases e p s) as [->|(c & -> & ? & ? & ->)];
      [by right|by left].
Qed.

Lemma attachComponent_result_witness :
  returned (EM.attachComponent maxEntityId (Some Demo.position) Demo.s1) = Some true
  ∧ EM.attachComponent maxEntityId (Some Demo.position') Demo.s2 = Ok false Demo.s2.
Proof.
  split.
  - apply (attachComponent_result Demo.s1 maxEntityId (Some Demo.position)).
    exists Demo.position. split; [reflexivity|]. split; [|vm_compute; reflexivity].
    eexists. vm_compute. reflexivity.
  - apply (attachComponent_result Demo.s2 maxEntityId (Some Demo.position')).
    right. right. exists Demo.position'. split; [reflexivity|].
    eexists. vm_compute. reflexivity.
Defined.

(** C6. After an [attachComponent e c] that returned [true] on a state of the
    manager, [getComponent<T> e] with [T] the dynamic type of [c] returns [c],
    and [getEntityNodes<T>] returns a map in which [e] is mapped to [c]. *)
Theorem attach_get_round_trip (s s' : EntityManager) (e : EntityId)
    (c : Component) :
  reachable s →
  EM.attachComponent e (Some c) s = Ok true s' →
  EM.getComponent (typeid c) e s' = Some c
  ∧ ∃ enNodes s'', EM.getEntityNodes (typeid c) s' = Ok (Some enNodes) s''
      ∧ enNodes !! e = Some (Some c).
Proof.
  intros (Hcons & _)%reachable_invariant Hatt.
  destruct (attachComponent_cases e (Some c) s) as [Hf|(c' & [= <-] & Hl & Hfree & Ht)];
    [congruence|].
  assert (s' = attached e c s) as -> by congruence. split.
  - rewrite getComponent_entry, attached_entity_entry by done.
    by rewrite decide_True.
  - destruct (getEntityNodes_spec (typeid c) (attached e c s))
      as (enNodes & s'' & Hget & Hnodes & _).
    exists enNodes, s''. split; [done|].
    rewrite Hnodes, attached_index_entry, decide_True by done.
    by rewrite <- Hcons, Hfree.
Qed.

Lemma attach_get_round_trip_witness :
  EM.getComponent "Position" maxEntityId Demo.s2 = Some Demo.position
  ∧ ∃ enNodes s'', EM.getEntityNodes "Position" Demo.s2 = Ok (Some enNodes) s''
      ∧ enNodes !! maxEntityId = Some (Some Demo.position).
Proof.
  exact (attach_get_round_trip Demo.s1 Demo.s2 maxEntityId Demo.position
           demo_reachable_s1 demo_attach_s2).
Defined.

(** C7. After a [detachComponent<T> e] that returned [true], and after a
    [destroyEntity e] that returned [true], on a state of the manager:
    [getComponent<T> e] returns null and the map that [getEntityNodes<T>]
    returns has no entry for [e]. *)
Theorem detach_destroy_then_absent (s s' : EntityManager) (e : EntityId)
    (T : type_index) :
  reachable s →
  EM.detachComponent T e s = Ok true s' ∨ EM.destroyEntity e s = Ok true s' →
  EM.getComponent T e s' = nullptr
  ∧ ∃ enNodes s'', EM.getEntityNodes T s' = Ok (Some enNodes) s''
      ∧ enNodes !! e = None.
Proof.
  intros Hinv%reachable_invariant Hop. pose proof Hinv as (Hcons & _).
  destruct (getEntityNodes_spec T s') as (enNodes & s'' & Hget & Hnodes & _).
  cut (entity_entry s' e T = None ∧ index_entry s' T e = None).
  { intros [Hent Hidx]. split.
    - by rewrite getComponent_entry, Hent.
    - exists enNodes, s''. split; [done|]. by rewrite Hnodes. }
  destruct Hop as [Hdet|Hdes].
  - destruct (detachComponent_cases T e s Hcons) as [[_ Hf]|[Hent Ht]]; [congruence|].
    assert (s' = detached T e s) as -> by congruence.
    rewrite detached_entity_entry by by apply (entity_entry_live _ _ T).
    rewrite detached_index_entry.
    + by rewrite !decide_True.
    + apply (index_entry_slot s T e). by rewrite <- Hcons.
  - destruct (destroyEntity_reachable s e Hinv)
      as [(Hl & s1 & Hd & _)|[_ Hf]]; [|congruence].
    destruct (destroyEntity_live e s Hcons Hl) as (s2 & Hd2 & Hm & _ & _ & Hidx).
    assert (s' = s2) as -> by congruence.
    rewrite (destroyEntity_entity_entry e s) by done.
    by rewrite Hidx, !decide_True.
Qed.

(** After [detachComponent<Position>] on the entity of [Demo.s2], and after
    [destroyEntity] on it: both return [true], and the component is gone from
    both tables. *)
Lemma detach_destroy_then_absent_witness :
  (EM.detachComponent "Position" maxEntityId Demo.s2
   = Ok true (detached "Position" maxEntityId Demo.s2)
   ∧ EM.getComponent "Position" maxEntityId (detached "Position" maxEntityId Demo.s2)
     = nullptr
   ∧ ∃ enNodes s'',
       EM.getEntityNodes "Position" (detached "Position" maxEntityId Demo.s2)
       = Ok (Some enNodes) s''
       ∧ enNodes !! maxEntityId = None)
  ∧ (EM.destroyEntity maxEntityId Demo.s2 = Ok true Demo.s2_destroyed
     ∧ EM.getComponent "Position" maxEntityId Demo.s2_destroyed = nullptr
     ∧ ∃ enNodes s'',
         EM.getEntityNodes "Position" Demo.s2_destroyed
         = Ok (Some enNodes) s''
         ∧ enNodes !! maxEntityId = None).
Proof.
  assert (Hdet : EM.detachComponent "Position" maxEntityId Demo.s2
                 = Ok true (detached "Position" maxEntityId Demo.s2))
    by (vm_compute; reflexivity).
  assert (Hdes : EM.destroyEntity maxEntityId Demo.s2
                 = Ok true Demo.s2_destroyed)
    by (vm_compute; reflexivity).
  split.
  - split; [exact Hdet|].
    apply (detach_destroy_then_absent Demo.s2 _ maxEntityId "Position").
    + exact demo_reachable_s2.
    + left. exact Hdet.
  - split; [exact Hdes|].
    apply (detach_destroy_then_absent Demo.s2 _ maxEntityId "Position").
    + exact demo_reachable_s2.
    + right. exact Hdes.
Defined.

(** ** The allocation rule *)

Lemma visited_scan cursor k :
  1 ≤ cursor ≤ maxEntityId → visited cursor k = scan cursor k.
Proof.
  intros Hc. induction k as [|k IH]; [done|].
  rewrite scan_S, <- IH. unfold visited at 1. simpl. fold (visited cursor k).
  unfold next_below. rewrite prev_id_eq; [done|].
  rewrite IH. by apply scan_in_range.
Qed.

Lemma first_available_unique entities cursor k k' :
  first_available entities cursor k → first_available entities cursor k' → k = k'.
Proof.
  intros [Hk Hlt] [Hk' Hlt'].
  destruct (Nat.lt_trichotomy k k') as [Hc|[Hc|Hc]]; [|done|].
  - destruct (Hlt' k Hc) as [? ?]. congruence.
  - destruct (Hlt k' Hc) as [? ?]. congruence.
Qed.

(** C8. [createEntity] follows the allocation rule. The cursor of a new
    manager is the largest id. On every state of a manager the scan never
    looks at 0, and there are an id [e] and a state [s'] that the rule allows,
    with [e] invalid exactly when all of [1 .. 2^32 - 1] is live, such that
    [createEntity] returns [e] and leaves [s'] as soon as the loop is given
    enough iterations, and returns nothing else however many it is given. *)
Theorem createEntity_allocation (s : EntityManager) :
  reachable s →
  m_nextEntityId EntityManager_new = maxEntityId
  ∧ (∀ k, visited (m_nextEntityId s) k ≠ InvalidEntity)
  ∧ ∃ e s',
      allocate s e s'
      ∧ (e = InvalidEntity ↔ exhausted s)
      ∧ (∃ k, (k ≤ size (m_entities s))%nat
              ∧ ∀ fuel, (k < fuel)%nat → EM.createEntity fuel s = Some (e, s'))
      ∧ ∀ fuel r, EM.createEntity fuel s = Some r → r = (e, s').
Proof.
  intros (_ & Hrange & _)%reachable_invariant. pose proof Hrange as [Hlive Hcur].
  split; [done|]. split.
  { intros k. rewrite visited_scan by done. by apply scan_valid. }
  assert (Hfull : Z.of_nat (size (m_entities s)) = maxEntityId ↔ exhausted s).
  { by apply size_max_iff_full. }
  destruct (decide (Z.of_nat (size (m_entities s)) = maxEntityId)) as [Hsz|Hsz].
  - exists InvalidEntity, s. split_and!.
    + apply allocate_exhausted. by apply Hfull.
    + split; [by intros _; apply Hfull|done].
    + exists 0%nat. split; [lia|]. intros fuel _. by apply createEntity_full.
    + intros fuel [e s'] [(_ & -> & ->)|(? & _)]%createEntity_Some; done.
  - destruct (createEntity_total s Hrange Hsz) as (k & Hk & Hav).
    pose proof Hav as [Hnone Hlt].
    pose proof (scan_in_range (m_nextEntityId s) k Hcur) as Hr.
    exists (scan (m_nextEntityId s) k), (created (scan (m_nextEntityId s) k) s).
    split_and!.
    + unfold created, set_nextEntityId, set_entities. simpl.
      rewrite prev_id_eq by done. apply (allocate_first s k).
      * by rewrite visited_scan.
      * by apply not_live_None.
      * intros j Hj. rewrite visited_scan by done. by apply Hlt.
    + split; [unfold InvalidEntity; lia|]. intros Hex. exfalso.
      by apply Hsz, Hfull.
    + exists k. split; [done|]. intros fuel Hf. by apply createEntity_first.
    + intros fuel [e s'] [(? & _)|(_ & k' & _ & Hav' & -> & ->)]%createEntity_Some;
        [done|].
      by rewrite (first_available_unique _ _ _ _ Hav' Hav).
Qed.

Lemma createEntity_allocation_witness :
  ∃ e s',
    allocate Demo.s2 e s'
    ∧ (∃ k, (k ≤ size (m_entities Demo.s2))%nat
            ∧ ∀ fuel, (k < fuel)%nat → EM.createEntity fuel Demo.s2 = Some (e, s')).
Proof.
  destruct (createEntity_allocation Demo.s2 demo_reachable_s2)
    as (_ & _ & e & s' & Hrule & _ & Hruns & _).
  exists e, s'. split; [exact Hrule|exact Hruns].
Defined.

(** C9 does not hold for every state: where the two tables disagree, the
    calls are not atomic. With the node
    of the entity's [Position] missing from the index, [detachComponent] has
    erased the node from the entity table when it throws, and the index is as
    it was. With a node for the entity already in the index,
    [attachComponent] returns [true] and has put its component in the entity
    table, while the index keeps the other one. *)
Lemma attach_detach_atomic_counterexample :
  (∃ what s',
     EM.detachComponent "Position" maxEntityId Demo.index_node_erased
     = Throw what s'
     ∧ entity_entry Demo.index_node_erased maxEntityId "Position"
       = Some (Some Demo.position)
     ∧ entity_entry s' maxEntityId "Position" = None
     ∧ m_componentTypes s' = m_componentTypes Demo.index_node_erased)
  ∧ (∃ s',
       EM.attachComponent maxEntityId (Some Demo.position') Demo.index_node_stale
       = Ok true s'
       ∧ entity_entry s' maxEntityId "Position" = Some (Some Demo.position')
       ∧ index_entry s' "Position" maxEntityId = Some (Some Demo.position)
       ∧ m_componentTypes s' = m_componentTypes Demo.index_node_stale)
  ∧ ¬ (∀ (s : EntityManager) (e : EntityId) (T : type_index),
         EM.detachComponent T e s = Ok false s
         ∨ ∃ s', EM.detachComponent T e s = Ok true s').
Proof.
  split_and!.
  - eexists _, _. split_and!; vm_compute; reflexivity.
  - eexists. split_and!; vm_compute; reflexivity.
  - intros Hall.
    destruct (Hall Demo.index_node_erased maxEntityId "Position") as [Hf|[s' Ht]].
    + vm_compute in Hf. discriminate.
    + vm_compute in Ht. discriminate.
Qed.

(** C9, amended. In every state in which the two tables agree entry by entry
    (every state of a manager used through its member functions is one, by
    C2), an [attachComponent] call either returns [false] and leaves the
    state as it was, or returns [true] and has put the node, absent from both
    tables before, into both; a [detachComponent] call either returns [false]
    and leaves the state as it was, or returns [true] and has erased the
    node, present in both tables before, from both. No other entry of either
    table changes, and neither call throws. *)
Theorem attach_detach_atomic (s : EntityManager) (e : EntityId)
    (p : shared_ptr Component) (T : type_index) :
  consistent s →
  (EM.attachComponent e p s = Ok false s
   ∨ ∃ c s', p = Some c ∧ EM.attachComponent e p s = Ok true s'
       ∧ entity_entry s e (typeid c) = None ∧ index_entry s (typeid c) e = None
       ∧ (∀ e' T', entity_entry s' e' T'
                   = if decide (e' = e ∧ T' = typeid c) then Some (Some c)
                     else entity_entry s e' T')
       ∧ (∀ e' T', index_entry s' T' e'
                   = if decide (e' = e ∧ T' = typeid c) then Some (Some c)
                     else index_entry s T' e'))
  ∧ (EM.detachComponent T e s = Ok false s
     ∨ ∃ s', EM.detachComponent T e s = Ok true s'
         ∧ is_Some (entity_entry s e T) ∧ is_Some (index_entry s T e)
         ∧ (∀ e' T', entity_entry s' e' T'
                     = if decide (e' = e ∧ T' = T) then None
                       else entity_entry s e' T')
         ∧ (∀ e' T', index_entry s' T' e'
                     = if decide (e' = e ∧ T' = T) then None
                       else index_entry s T' e')).
Proof.
  intros Hcons. split.
  - destruct (attachComponent_cases e p s) as [?|(c & -> & Hl & Hfree & Ht)];
      [by left|right].
    exists c, (attached e c s). split_and!; try done.
    + by rewrite <- Hcons.
    + intros e' T'. by apply attached_entity_entry.
    + intros e' T'. rewrite attached_index_entry, <- Hcons, Hfree. simpl.
      destruct (decide (e' = e ∧ T' = typeid c)) as [[-> ->]|Hd].
      * by rewrite decide_True.
      * by rewrite decide_False by tauto.
  - destruct (detachComponent_cases T e s Hcons) as [[_ ?]|[Hent Ht]];
      [by left|right].
    exists (detached T e s). split_and!; try done.
    + by rewrite <- Hcons.
    + intros e' T'. apply detached_entity_entry. by apply (entity_entry_live _ _ T).
    + intros e' T'. rewrite detached_index_entry.
      * destruct (decide (e' = e ∧ T' = T)) as [[-> ->]|Hd].
        -- by rewrite decide_True.
        -- by rewrite decide_False by tauto.
      * apply (index_entry_slot s T e). by rewrite <- Hcons.
Qed.

(** On the manager with one bare entity: the tables agree, attaching a
    [Position] returns [true] and writes both tables, detaching a [Velocity]
    returns [false]; and on the entity with its [Position], detaching it
    returns [true] and erases it from both. *)
Lemma attach_detach_atomic_witness :
  consistent Demo.s1
  ∧ (∃ s', EM.attachComponent maxEntityId (Some Demo.position) Demo.s1 = Ok true s'
       ∧ entity_entry s' maxEntityId "Position" = Some (Some Demo.position)
       ∧ index_entry s' "Position" maxEntityId = Some (Some Demo.position))
  ∧ EM.detachComponent "Velocity" maxEntityId Demo.s1 = Ok false Demo.s1
  ∧ (∃ s', EM.detachComponent "Position" maxEntityId Demo.s2 = Ok true s'
       ∧ entity_entry s' maxEntityId "Position" = None
       ∧ index_entry s' "Position" maxEntityId = None).
Proof.
  pose proof (proj1 (reachable_invariant Demo.s1 demo_reachable_s1)) as Hc1.
  pose proof (proj1 (reachable_invariant Demo.s2 demo_reachable_s2)) as Hc2.
  destruct (attach_detach_atomic Demo.s1 maxEntityId (Some Demo.position) "Velocity"
              Hc1) as [Hatt Hdet].
  destruct (attach_detach_atomic Demo.s2 maxEntityId nullptr "Position" Hc2)
    as [_ Hdet2].
  split; [exact Hc1|]. split_and!.
  - destruct Hatt as [Hf|(c & s' & Hc & Ht & _ & _ & Hent & Hidx)].
    + vm_compute in Hf. discriminate.
    + injection Hc as <-. exists s'. split; [exact Ht|]. split.
      * rewrite Hent. reflexivity.
      * rewrite Hidx. reflexivity.
  - destruct Hdet as [Hf|(s' & Ht & _)].
    + exact Hf.
    + vm_compute in Ht. discriminate.
  - destruct Hdet2 as [Hf|(s' & Ht & _ & _ & Hent & Hidx)].
    + vm_compute in Hf. discriminate.
    + exists s'. split; [exact Ht|]. split.
      * rewrite Hent. reflexivity.
      * rewrite Hidx. reflexivity.
Defined.

(** ** The frame of markForRemoval *)

Lemma destroyEntity_nodes_marked l e nodes s :
  EM.destroyEntity_nodes e nodes (set_marked l s)
  = with_marked l (EM.destroyEntity_nodes e nodes s).
Proof.
  revert s. induction nodes as [|[T q] nodes IH]; intros s; simpl; [done|].
  destruct (m_componentTypes s !! T) as [enNodes|]; simpl; [|done].
  destruct (enNodes !! e); simpl; [|done].
  apply (IH (set_componentTypes _ s)).
Qed.

Lemma destroyEntity_marked l e s :
  EM.destroyEntity e (set_marked l s) = with_marked l (EM.destroyEntity e s).
Proof.
  unfold EM.destroyEntity. simpl. destruct (m_entities s !! e) as [cm|]; [|done].
  rewrite destroyEntity_nodes_marked.
  by destruct (EM.destroyEntity_nodes e (map_to_list cm) s).
Qed.

Lemma getEntityNodes_marked l T s :
  EM.getEntityNodes T (set_marked l s) = with_marked l (EM.getEntityNodes T s).
Proof.
  unfold EM.getEntityNodes. simpl.
  destruct (m_componentTypes s !! T) as [enNodes|] eqn:Hc; [done|].
  by rewrite (map_insert_new_None _ _ _ Hc).
Qed.

Lemma markForRemoval_set_marked e s :
  EM.markForRemoval e s
  = set_marked (m_entitiesMarkedForRemoval (EM.markForRemoval e s)) s.
Proof.
  unfold EM.markForRemoval. destruct (m_entities s !! e); [done|].
  by destruct s.
Qed.

(** C10. In every state and for every id, [markForRemoval] changes neither
    table (nor the cursor): it appends the id to the marked list when the id
    is live and does nothing otherwise. So [getComponent] returns the same
    pointer after it as before, and [getEntityNodes] and [destroyEntity] have
    the same outcome and leave the same state, up to the marked list. *)
Theorem markForRemoval_frame (s : EntityManager) (e : EntityId) :
  m_entities (EM.markForRemoval e s) = m_entities s
  ∧ m_componentTypes (EM.markForRemoval e s) = m_componentTypes s
  ∧ m_nextEntityId (EM.markForRemoval e s) = m_nextEntityId s
  ∧ (live s e →
     m_entitiesMarkedForRemoval (EM.markForRemoval e s)
     = m_entitiesMarkedForRemoval s ++ [e])
  ∧ (¬ live s e → EM.markForRemoval e s = s)
  ∧ (∀ T e', EM.getComponent T e' (EM.markForRemoval e s) = EM.getComponent T e' s)
  ∧ (∀ T, EM.getEntityNodes T (EM.markForRemoval e s)
          = with_marked (m_entitiesMarkedForRemoval (EM.markForRemoval e s))
              (EM.getEntityNodes T s))
  ∧ (∀ e', EM.destroyEntity e' (EM.markForRemoval e s)
           = with_marked (m_entitiesMarkedForRemoval (EM.markForRemoval e s))
               (EM.destroyEntity e' s)).
Proof.
  destruct (markForRemoval_tables e s) as (Hm & Hc & Hnx).
  split_and!; try done.
  - intros [cm Hcm]. unfold EM.markForRemoval. by rewrite Hcm.
  - intros Hd%not_live_None. unfold EM.markForRemoval. by rewrite Hd.
  - intros T e'. unfold EM.getComponent. by rewrite Hm.
  - intros T. rewrite (markForRemoval_set_marked e s) at 1.
    apply getEntityNodes_marked.
  - intros e'. rewrite (markForRemoval_set_marked e s) at 1.
    apply destroyEntity_marked.
Qed.

Lemma markForRemoval_frame_witness :
  m_entitiesMarkedForRemoval (EM.markForRemoval maxEntityId Demo.s2) = [maxEntityId]
  ∧ EM.markForRemoval 7 Demo.s2 = Demo.s2.
Proof.
  destruct (markForRemoval_frame Demo.s2 maxEntityId) as (_ & _ & _ & Hlive & _).
  destruct (markForRemoval_frame Demo.s2 7) as (_ & _ & _ & _ & Hdead & _).
  split.
  - apply Hlive. eexists. vm_compute. reflexivity.
  - apply Hdead. intros [cm Hcm]. vm_compute in Hcm. discriminate.
Defined.

(** ** The unit tests of [test_entity.cpp], run on the embedding *)

(** [TEST_F(TestEntity, createEntity)]: ten ids, none invalid, all distinct. *)
Example test_createEntity :
  ∃ ids s, Demo.create_entities 1 10 EntityManager_new = Some (ids, s)
    ∧ length ids = 10%nat ∧ NoDup ids ∧ Forall (λ e, e ≠ InvalidEntity) ids.
Proof.
  eexists _, _. split; [vm_compute; reflexivity|]. split; [reflexivity|]. split.
  - refine (bool_decide_unpack _ _). vm_compute. exact I.
  - refine (bool_decide_unpack _ _). vm_compute. exact I.
Qed.

(** [TEST_F(TestEntity, destroyEntity)]: an entity is destroyed only once. *)
Example test_destroyEntity :
  ∃ s, EM.destroyEntity maxEntityId Demo.s2 = Ok true s
    ∧ EM.destroyEntity maxEntityId s = Ok false s.
Proof. eexists. split; vm_compute; reflexivity. Qed.

(** [TEST_F(TestEntity, destroyAllEntities)] *)
Example test_destroyAllEntities :
  ∃ s, EM.destroyAllEntities Demo.s4 = Ok true s
    ∧ EM.destroyEntity maxEntityId s = Ok false s
    ∧ EM.destroyEntity (maxEntityId - 1) s = Ok false s.
Proof. eexists. split_and!; vm_compute; reflexivity. Qed.

(** [TEST_F(TestEntity, markForRemoval_and_purge)]: ten entities, all marked,
    one [purge]; every later [destroyEntity] returns [false]. *)
Example test_markForRemoval_and_purge :
  ∃ ids s s', Demo.create_entities 1 10 EntityManager_new = Some (ids, s)
    ∧ EM.purge (Demo.mark_all ids s) = Ok tt s'
    ∧ Forall (λ e, returned (EM.destroyEntity e s') = Some false) ids.
Proof.
  eexists _, _, _. split; [vm_compute; reflexivity|].
  split; [vm_compute; reflexivity|].
  refine (bool_decide_unpack _ _). vm_compute. exact I.
Qed.

(** [TEST_F(TestEntity, attachComponent_and_getComponent)]: the component is
    there, and a second one of the same class is refused. *)
Example test_attachComponent_and_getComponent :
  EM.attachComponent maxEntityId (Some Demo.position) Demo.s1 = Ok true Demo.s2
  ∧ EM.getComponent "Position" maxEntityId Demo.s2 ≠ nullptr
  ∧ returned (EM.attachComponent maxEntityId (Some Demo.position') Demo.s2)
    = Some false.
Proof. split_and!; [vm_compute; reflexivity|vm_compute; discriminate|vm_compute; reflexivity]. Qed.

(** [TEST_F(TestEntity, getEntityNodes)]: two entities with a [Position], the
    second also with a [Velocity]. *)
Example test_getEntityNodes :
  ∃ s5 nodesA sA nodesB sB,
    EM.attachComponent (maxEntityId - 1) (Some Demo.position') Demo.s4 = Ok true s5
    ∧ EM.attachComponent (maxEntityId - 1) (Some Demo.velocity) s5 = Ok true sA
    ∧ EM.getEntityNodes "Position" sA = Ok (Some nodesA) sA
    ∧ size nodesA = 2%nat
    ∧ is_Some (nodesA !! maxEntityId) ∧ is_Some (nodesA !! (maxEntityId - 1))
    ∧ EM.getEntityNodes "Velocity" sA = Ok (Some nodesB) sB
    ∧ size nodesB = 1%nat ∧ is_Some (nodesB !! (maxEntityId - 1)).
Proof.
  eexists _, _, _, _, _. split_and!; try (vm_compute; reflexivity).
  - eexists. vm_compute. reflexivity.
  - eexists. vm_compute. reflexivity.
  - eexists. vm_compute. reflexivity.
Qed.

(** ** Further properties of the manager *)

Section further.
Implicit Types (s : EntityManager) (e : EntityId) (T : type_index).

Lemma run_app s tr s' tr' s'' : run s tr s' → run s' tr' s'' → run s (tr ++ tr') s''.
Proof.
  intros Hrun Hrun'. induction Hrun as [s|s op r tr s' Hcall Hrun IH]; simpl; [done|].
  econstructor; [done|]. by apply IH.
Qed.

Lemma reachable_of_invariant_call fuel op s r :
  reachable s → call fuel op s = Some r →
  ∃ v s', r = Ok v s' ∧ reachable s' ∧ invariant s' ∧ live_effect op v s s'.
Proof.
  intros Hs Hcall. pose proof (reachable_invariant s Hs) as Hinv.
  destruct (call_invariant fuel op s r Hinv Hcall) as (v & s' & -> & Hinv' & Heff).
  exists v, s'. split_and!; try done. apply (reachable_call fuel op s _ Hs Hcall).
Qed.

(** Every call returns when the loop of [createEntity] is given enough
    iterations. *)
Lemma call_returns op s :
  invariant s → ∃ fuel r, call fuel op s = Some r.
Proof.
  intros (_ & Hrange & _). destruct op; simpl; try by (exists 0%nat; eauto).
  destruct (decide (Z.of_nat (size (m_entities s)) = maxEntityId)) as [Hsz|Hsz].
  - exists 0%nat. rewrite createEntity_full by done. eauto.
  - destruct (createEntity_total s Hrange Hsz) as (k & _ & Hav).
    exists (S k). rewrite (createEntity_first (S k) s k) by (done || lia). eauto.
Qed.

Lemma EntityManager_eq s s' :
  m_entities s = m_entities s' →
  m_entitiesMarkedForRemoval s = m_entitiesMarkedForRemoval s' →
  m_componentTypes s = m_componentTypes s' →
  m_nextEntityId s = m_nextEntityId s' →
  s = s'.
Proof. destruct s, s'. simpl. by intros -> -> -> ->. Qed.

(** What [destroyEntity] leaves of the entity table, live id or not. *)
Lemma destroyEntity_entries e s :
  invariant s →
  ∃ b s', EM.destroyEntity e s = Ok b s' ∧ invariant s'
    ∧ (∀ e' T', entity_entry s' e' T'
                = if decide (e' = e) then None else entity_entry s e' T')
    ∧ m_entitiesMarkedForRemoval s' = m_entitiesMarkedForRemoval s
    ∧ m_nextEntityId s' = m_nextEntityId s.
Proof.
  intros Hinv. pose proof Hinv as (Hcons & _).
  destruct (invariant_destroyEntity e s Hinv) as (b & s' & Hd & Hinv' & Hb & _ & Hmk & Hnx).
  exists b, s'. split_and!; try done. intros e' T'.
  destruct (live_dec s e) as [Hl|Hdead].
  - destruct (destroyEntity_live e s Hcons Hl) as (s2 & Hd2 & Hm & _).
    assert (s' = s2) as -> by congruence.
    by apply (destroyEntity_entity_entry e s).
  - rewrite (destroyEntity_unknown _ _ Hdead) in Hd. injection Hd as <- <-.
    case_decide as He; [|done]. subst.
    unfold entity_entry. by rewrite (lookup2_outer_None _ _ _ Hdead).
Qed.
End further.

(** X1. A manager that is used through its member functions never throws:
    on every state reached from a new manager, every call returns (given
    enough iterations for the search loop of [createEntity]), and no call
    ends in an exception. *)
Theorem public_calls_never_throw (s : EntityManager) (op : Op) :
  reachable s →
  (∃ fuel v s', call fuel op s = Some (Ok v s'))
  ∧ ∀ fuel r, call fuel op s = Some r → ∃ v s', r = Ok v s' ∧ reachable s'.
Proof.
  intros Hs. pose proof (reachable_invariant s Hs) as Hinv. split.
  - destruct (call_returns op s Hinv) as (fuel & r & Hcall).
    destruct (reachable_of_invariant_call fuel op s r Hs Hcall) as (v & s' & -> & _).
    by exists fuel, v, s'.
  - intros fuel r Hcall.
    destruct (reachable_of_invariant_call fuel op s r Hs Hcall) as (v & s' & -> & ? & _).
    by exists v, s'.
Qed.

Lemma public_calls_never_throw_witness :
  ∃ fuel v s', call fuel (OpDetachComponent "Position" maxEntityId) Demo.s2
               = Some (Ok v s').
Proof.
  exact (proj1 (public_calls_never_throw Demo.s2
                  (OpDetachComponent "Position" maxEntityId) demo_reachable_s2)).
Defined.

(** X2. The invalid id is never the id of an entity: in every state of a
    manager [InvalidEntity] is not live, so [destroyEntity], [attachComponent]
    and [detachComponent] return [false] for it, [getComponent] returns null
    and [markForRemoval] does nothing. *)
Theorem invalid_entity_never_live (s : EntityManager) :
  reachable s →
  ¬ live s InvalidEntity
  ∧ EM.destroyEntity InvalidEntity s = Ok false s
  ∧ (∀ p, EM.attachComponent InvalidEntity p s = Ok false s)
  ∧ (∀ T, EM.detachComponent T InvalidEntity s = Ok false s)
  ∧ (∀ T, EM.getComponent T InvalidEntity s = nullptr)
  ∧ EM.markForRemoval InvalidEntity s = s.
Proof.
  intros (_ & [Hlive _] & _)%reachable_invariant.
  assert (Hdead : m_entities s !! InvalidEntity = None).
  { apply not_live_None. intros Hl%Hlive. unfold InvalidEntity in Hl. lia. }
  split_and!.
  - by apply not_live_None.
  - by apply destroyEntity_unknown.
  - intros p. by apply attachComponent_unknown.
  - intros T. by apply detachComponent_unknown.
  - intros T. unfold EM.getComponent. by rewrite Hdead.
  - unfold EM.markForRemoval. by rewrite Hdead.
Qed.

Lemma invalid_entity_never_live_witness :
  EM.destroyEntity InvalidEntity Demo.s2 = Ok false Demo.s2.
Proof.
  exact (proj1 (proj2 (invalid_entity_never_live Demo.s2 demo_reachable_s2))).
Defined.

(** X3. A new entity starts without components, also when its id belonged to
    an entity that has been destroyed: after a [createEntity] that returns a
    valid id [e], the entity is live, [getComponent<T> e] is null and no map
    of the index has a node for [e], for every [T]; the components of all
    other entities and the whole index are as before. *)
Theorem createEntity_fresh_entity_empty (s s' : EntityManager) (fuel : nat)
    (e : EntityId) :
  reachable s → EM.createEntity fuel s = Some (e, s') → e ≠ InvalidEntity →
  ¬ live s e ∧ live s' e
  ∧ (∀ T, EM.getComponent T e s' = nullptr ∧ index_entry s' T e = None)
  ∧ (∀ e' T, e' ≠ e → EM.getComponent T e' s' = EM.getComponent T e' s)
  ∧ m_componentTypes s' = m_componentTypes s.
Proof.
  intros (Hcons & _)%reachable_invariant Hc Hvalid.
  destruct (createEntity_Some _ _ _ _ Hc)
    as [(_ & ? & _)|(_ & k & _ & [Hav _] & He & ->)]; [done|]. subst e.
  set (e := scan (m_nextEntityId s) k) in *.
  assert (Hent : ∀ e' T, entity_entry (created e s) e' T = entity_entry s e' T).
  { intros e' T. by apply created_entity_entry. }
  assert (Hnone : ∀ T, entity_entry s e T = None).
  { intros T. unfold entity_entry. by rewrite (lookup2_outer_None _ _ _ Hav). }
  split_and!.
  - by apply not_live_None.
  - apply created_live. by left.
  - intros T. split.
    + by rewrite getComponent_entry, Hent, Hnone.
    + change (index_entry s T e = None). by rewrite <- Hcons.
  - intros e' T _. by rewrite !getComponent_entry, Hent.
  - done.
Qed.

Lemma createEntity_fresh_entity_empty_witness :
  live Demo.s4 (maxEntityId - 1)
  ∧ ∀ T, EM.getComponent T (maxEntityId - 1) Demo.s4 = nullptr
         ∧ index_entry Demo.s4 T (maxEntityId - 1) = None.
Proof.
  destruct (createEntity_fresh_entity_empty Demo.s2 Demo.s4 2 (maxEntityId - 1))
    as (_ & Hl & Hempty & _).
  - exact demo_reachable_s2.
  - exact demo_create_s4.
  - vm_compute. discriminate.
  - split; [exact Hl|exact Hempty].
Defined.

Section descending.
Implicit Types (s : EntityManager) (e : EntityId).

(** From a cursor with nothing live at or below it, [n] calls of
    [createEntity] hand out the cursor's id and the ones below it, in turn. *)
Lemma create_entities_descending n :
  ∀ s fuel, invariant s → (0 < fuel)%nat →
    Z.of_nat n ≤ m_nextEntityId s →
    (∀ e, 1 ≤ e ≤ m_nextEntityId s → ¬ live s e) →
    ∃ s', Demo.create_entities fuel n s
          = Some ((λ i : nat, m_nextEntityId s - Z.of_nat i) <$> seq 0 n, s')
      ∧ invariant s'.
Proof.
  induction n as [|n IH]; intros s fuel Hinv Hfuel Hn Hfree.
  { by exists s. }
  cbn [Demo.create_entities seq]. rewrite fmap_cons, Z.sub_0_r.
  pose proof Hinv as (_ & Hrange & _). pose proof Hrange as [Hlive Hcur].
  set (c := m_nextEntityId s) in *.
  assert (Hc : m_entities s !! c = None).
  { apply not_live_None, Hfree. lia. }
  assert (Hsz : Z.of_nat (size (m_entities s)) ≠ maxEntityId).
  { intros Hsz. apply (Hfree c); [lia|].
    by apply (proj1 (size_max_iff_full (m_entities s) Hlive)). }
  rewrite (createEntity_first fuel s 0); [|done|split; [done|lia]|lia].
  change (scan (m_nextEntityId s) 0) with c.
  assert (Hinv1 : invariant (created c s)) by by apply invariant_created.
  destruct n as [|n].
  { by exists (created c s). }
  assert (Hnx : m_nextEntityId (created c s) = c - 1).
  { simpl. rewrite prev_id_eq by done. rewrite decide_False; [done|lia]. }
  destruct (IH (created c s) fuel Hinv1 Hfuel) as (s' & Hrun & Hinv').
  { rewrite Hnx. lia. }
  { intros e He [->|Hl]%created_live; [rewrite Hnx in He; lia|].
    apply (Hfree e); [rewrite Hnx in He; lia|done]. }
  rewrite Hrun. exists s'. split; [|done]. do 3 f_equal.
  rewrite Hnx, <- fmap_S_seq, <- list_fmap_compose.
  apply list_fmap_ext. intros i x _. simpl. lia.
Qed.
End descending.

(** X4. A new manager hands out ids downwards from the largest: its first
    [n] calls of [createEntity] (for [n] up to the [2^32 - 1] valid ids)
    return [2^32 - 1], [2^32 - 2], ..., [2^32 - n], in this order. *)
Theorem createEntity_ids_descend (n fuel : nat) :
  (0 < fuel)%nat → Z.of_nat n ≤ maxEntityId →
  ∃ s, Demo.create_entities fuel n EntityManager_new
       = Some ((λ i : nat, maxEntityId - Z.of_nat i) <$> seq 0 n, s).
Proof.
  intros Hfuel Hn.
  destruct (create_entities_descending n EntityManager_new fuel invariant_new Hfuel)
    as (s & Hrun & _); [done| |by exists s].
  intros e _. apply new_not_live.
Qed.

Lemma createEntity_ids_descend_witness :
  ∃ s, Demo.create_entities 1 3 EntityManager_new
       = Some ([maxEntityId; maxEntityId - 1; maxEntityId - 2], s).
Proof.
  destruct (createEntity_ids_descend 3 1) as (s & Hrun).
  - lia.
  - vm_compute. discriminate.
  - exists s. exact Hrun.
Defined.

(** X5. [destroyEntity e] removes [e] and nothing else: when it returns
    [true] on a state of the manager, every other entity is live exactly as
    before and keeps each of its components, in the entity table and in the
    index, and the marked list and the cursor are unchanged (so the id is not
    handed out again until the search comes round to it). *)
Theorem destroyEntity_frame_others (s s' : EntityManager) (e : EntityId) :
  reachable s → EM.destroyEntity e s = Ok true s' →
  (∀ e', live s' e' ↔ live s e' ∧ e' ≠ e)
  ∧ (∀ e' T, e' ≠ e →
       EM.getComponent T e' s' = EM.getComponent T e' s
       ∧ index_entry s' T e' = index_entry s T e')
  ∧ m_entitiesMarkedForRemoval s' = m_entitiesMarkedForRemoval s
  ∧ m_nextEntityId s' = m_nextEntityId s.
Proof.
  intros Hinv%reachable_invariant Hd.
  destruct (invariant_destroyEntity e s Hinv) as (b & s1 & Hd1 & _ & _ & Hlive & _).
  destruct (destroyEntity_entries e s Hinv) as (b2 & s2 & Hd2 & Hinv2 & Hent & Hmk & Hnx).
  assert (s1 = s') as -> by congruence. assert (s2 = s') as -> by congruence.
  split_and!; try done. intros e' T Hne.
  pose proof Hinv as (Hcons & _). pose proof Hinv2 as (Hcons' & _).
  assert (Hsame : entity_entry s' e' T = entity_entry s e' T).
  { by rewrite Hent, decide_False. }
  split.
  - by rewrite !getComponent_entry, Hsame.
  - by rewrite <- Hcons', <- Hcons.
Qed.

Lemma destroyEntity_frame_others_witness :
  ∃ s', EM.destroyEntity (maxEntityId - 1) Demo.s4 = Ok true s'
    ∧ EM.getComponent "Position" maxEntityId s' = Some Demo.position.
Proof.
  eexists. split; [vm_compute; reflexivity|].
  refine (eq_trans (proj1 (proj1 (proj2 (destroyEntity_frame_others Demo.s4 _
            (maxEntityId - 1) _ _)) maxEntityId "Position" _)) _).
  - apply (reachable_call 2 OpCreateEntity Demo.s2 (Ok (VId (maxEntityId - 1)) Demo.s4)).
    + exact demo_reachable_s2.
    + simpl. by rewrite demo_create_s4.
  - vm_compute. reflexivity.
  - vm_compute. discriminate.
  - vm_compute. reflexivity.
Defined.

(** X6. [destroyAllEntities] always returns [true] and empties both tables,
    in any state: afterwards every [destroyEntity] returns [false], every
    [getComponent] is null and every [getEntityNodes] returns an empty map.
    It keeps the marked list and the cursor, so ids do not start again from
    the largest: the next [createEntity] returns the id the cursor was at. *)
Theorem destroyAllEntities_clears (s : EntityManager) :
  ∃ s', EM.destroyAllEntities s = Ok true s'
    ∧ (∀ e, EM.destroyEntity e s' = Ok false s')
    ∧ (∀ T e, EM.getComponent T e s' = nullptr)
    ∧ (∀ T, ∃ s'', EM.getEntityNodes T s' = Ok (Some ∅) s'')
    ∧ m_entitiesMarkedForRemoval s' = m_entitiesMarkedForRemoval s
    ∧ m_nextEntityId s' = m_nextEntityId s
    ∧ ∀ fuel, (0 < fuel)%nat →
        EM.createEntity fuel s'
        = Some (m_nextEntityId s, created (m_nextEntityId s) s').
Proof.
  eexists. split; [reflexivity|]. split_and!; try done.
  - intros T. eexists. unfold EM.getEntityNodes.
    cbn [m_componentTypes set_componentTypes].
    rewrite lookup_empty, (map_insert_new_None _ _ _ (lookup_empty _)).
    cbn [negb]. by rewrite lookup_insert_eq.
  - intros [|fuel] Hfuel; [lia|]. unfold EM.createEntity. simpl.
    rewrite map_size_empty, decide_False by (unfold maxEntityId; lia).
    by rewrite lookup_empty.
Qed.

Section purging.
Implicit Types (s : EntityManager) (e : EntityId) (T : type_index).

(** What the loop of [purge] leaves of the entity table. *)
Lemma purge_loop_entries marked s :
  invariant s →
  ∃ s', EM.purge_loop marked s = Ok tt s' ∧ invariant s'
    ∧ (∀ e T, entity_entry s' e T
              = if decide (e ∈ marked) then None else entity_entry s e T)
    ∧ (∀ e, live s' e ↔ live s e ∧ e ∉ marked)
    ∧ m_nextEntityId s' = m_nextEntityId s.
Proof.
  intros Hinv.
  destruct (invariant_purge_loop marked s Hinv) as (s' & Hrun & Hinv' & Hlive & _ & Hnx).
  exists s'. split_and!; try done. clear Hlive Hnx Hinv'.
  revert s s' Hinv Hrun. induction marked as [|e0 marked IH]; intros s s' Hinv;
    cbn [EM.purge_loop].
  - intros [= <-] e T. rewrite decide_False; [done|]. apply not_elem_of_nil.
  - destruct (destroyEntity_entries e0 s Hinv) as (b & s1 & -> & Hinv1 & Hent & _).
    intros Hrun e T. rewrite (IH s1 s' Hinv1 Hrun), Hent.
    destruct (decide (e = e0)) as [->|Hne].
    + rewrite (decide_True (P := e0 ∈ e0 :: marked)) by left. by case_decide.
    + destruct (decide (e ∈ marked)) as [Hel|Hnel].
      * rewrite decide_True; [done|]. by right.
      * rewrite decide_False; [done|]. by intros [?|?]%elem_of_cons.
Qed.

(** Over ids that are not live the loop of [purge] changes nothing. *)
Lemma purge_loop_dead marked s :
  (∀ e, e ∈ marked → m_entities s !! e = None) → EM.purge_loop marked s = Ok tt s.
Proof.
  induction marked as [|e marked IH]; intros Hdead; simpl; [done|].
  rewrite destroyEntity_unknown by (apply Hdead; left).
  apply IH. intros e' He'. apply Hdead. by right.
Qed.

Lemma markForRemoval_live e s :
  live s e →
  EM.markForRemoval e s = set_marked (m_entitiesMarkedForRemoval s ++ [e]) s.
Proof. intros [cm Hcm]. unfold EM.markForRemoval. by rewrite Hcm. Qed.

(** One round of [createEntity] and [destroyEntity] on a manager without
    entities moves the cursor one step and changes nothing else. *)
Lemma create_destroy_round s :
  m_entities s = ∅ →
  EM.createEntity 1 s = Some (m_nextEntityId s, created (m_nextEntityId s) s)
  ∧ EM.destroyEntity (m_nextEntityId s) (created (m_nextEntityId s) s)
    = Ok true (set_nextEntityId (EM.prev_id (m_nextEntityId s)) s).
Proof.
  intros Hm. split.
  - unfold EM.createEntity, created. simpl. rewrite Hm, map_size_empty.
    rewrite decide_False by (unfold maxEntityId; lia). by rewrite lookup_empty.
  - unfold EM.destroyEntity, created. simpl. rewrite lookup_insert_eq.
    rewrite map_to_list_empty. simpl. rewrite Hm, delete_insert_id by apply lookup_empty.
    destruct s. simpl in *. by subst.
Qed.

Lemma create_destroy_rounds k :
  ∀ s, m_entities s = ∅ →
    ∃ tr, run s tr (set_nextEntityId (scan (m_nextEntityId s) k) s).
Proof.
  induction k as [|k IH]; intros s Hm.
  - exists []. replace (set_nextEntityId _ s) with s by by destruct s. constructor.
  - destruct (create_destroy_round s Hm) as [Hc Hd].
    set (c := m_nextEntityId s) in *.
    destruct (IH (set_nextEntityId (EM.prev_id c) s) Hm) as (tr & Hrun).
    simpl in Hrun. rewrite scan_shift in Hrun.
    exists ((OpCreateEntity, Ok (VId c) (created c s))
            :: (OpDestroyEntity c,
                Ok (VBool true) (set_nextEntityId (EM.prev_id c) s)) :: tr).
    econstructor; [exists 1%nat; simpl; by rewrite Hc|].
    econstructor; [exists 0%nat; simpl; by rewrite Hd|].
    exact Hrun.
Qed.
End purging.

(** X7. On a state of the manager [purge] does not throw and destroys
    exactly the live entities whose ids are in the marked list, however often
    an id is listed: afterwards an entity is live when it was live and not
    marked, such an entity keeps each of its components in both tables, and
    the cursor is unchanged. *)
Theorem purge_destroys_marked (s : EntityManager) :
  reachable s →
  ∃ s', EM.purge s = Ok tt s'
    ∧ (∀ e, live s' e ↔ live s e ∧ e ∉ m_entitiesMarkedForRemoval s)
    ∧ (∀ e T, e ∉ m_entitiesMarkedForRemoval s →
         EM.getComponent T e s' = EM.getComponent T e s
         ∧ index_entry s' T e = index_entry s T e)
    ∧ (∀ e T, e ∈ m_entitiesMarkedForRemoval s →
         EM.getComponent T e s' = nullptr ∧ index_entry s' T e = None)
    ∧ m_nextEntityId s' = m_nextEntityId s.
Proof.
  intros Hinv%reachable_invariant. unfold EM.purge.
  destruct (purge_loop_entries (m_entitiesMarkedForRemoval s) s Hinv)
    as (s' & Hrun & Hinv' & Hent & Hlive & Hnx).
  pose proof Hinv as (Hcons & _). pose proof Hinv' as (Hcons' & _).
  exists s'. split_and!; try done.
  - intros e T Hnot.
    assert (Hsame : entity_entry s' e T = entity_entry s e T)
      by by rewrite Hent, decide_False.
    split; [by rewrite !getComponent_entry, Hsame|by rewrite <- Hcons', <- Hcons].
  - intros e T Hel.
    assert (Hnone : entity_entry s' e T = None) by by rewrite Hent, decide_True.
    split; [by rewrite getComponent_entry, Hnone|by rewrite <- Hcons'].
Qed.

Lemma purge_destroys_marked_witness :
  ∃ s', EM.purge Demo.s3 = Ok tt s'
    ∧ (∀ e, live s' e ↔ live Demo.s3 e ∧ e ∉ m_entitiesMarkedForRemoval Demo.s3).
Proof.
  destruct (purge_destroys_marked Demo.s3 demo_reachable_s3) as (s' & Hp & Hl & _).
  exists s'. split; [exact Hp|exact Hl].
Defined.

(** X8. Marking is not deduplicated and that does no harm: marking a live
    entity twice appends its id twice, and one [purge] then returns without
    an exception with the entity destroyed. *)
Theorem mark_twice_then_purge (s : EntityManager) (e : EntityId) :
  reachable s → live s e →
  m_entitiesMarkedForRemoval (EM.markForRemoval e (EM.markForRemoval e s))
  = m_entitiesMarkedForRemoval s ++ [e; e]
  ∧ ∃ s', EM.purge (EM.markForRemoval e (EM.markForRemoval e s)) = Ok tt s'
      ∧ ¬ live s' e
      ∧ ∀ T, EM.getComponent T e s' = nullptr.
Proof.
  intros Hinv%reachable_invariant Hl.
  assert (Hl1 : live (EM.markForRemoval e s) e).
  { unfold live. by destruct (markForRemoval_tables e s) as (-> & _). }
  assert (Hmk : m_entitiesMarkedForRemoval (EM.markForRemoval e (EM.markForRemoval e s))
                = m_entitiesMarkedForRemoval s ++ [e; e]).
  { rewrite (markForRemoval_live e (EM.markForRemoval e s) Hl1).
    rewrite (markForRemoval_live e s Hl). simpl. by rewrite <- app_assoc. }
  split; [done|]. unfold EM.purge. rewrite Hmk.
  destruct (purge_loop_entries (m_entitiesMarkedForRemoval s ++ [e; e])
              (EM.markForRemoval e (EM.markForRemoval e s)))
    as (s' & Hrun & _ & Hent & Hlive & _).
  { by do 2 apply invariant_markForRemoval. }
  assert (Hel : e ∈ m_entitiesMarkedForRemoval s ++ [e; e]).
  { apply elem_of_app. right. left. }
  exists s'. split; [done|]. split.
  - rewrite Hlive. tauto.
  - intros T. by rewrite getComponent_entry, Hent, decide_True.
Qed.

Lemma mark_twice_then_purge_witness :
  ∃ s', EM.purge (EM.markForRemoval maxEntityId (EM.markForRemoval maxEntityId Demo.s2))
        = Ok tt s'
    ∧ ¬ live s' maxEntityId.
Proof.
  destruct (mark_twice_then_purge Demo.s2 maxEntityId demo_reachable_s2)
    as (_ & s' & Hp & Hdead & _).
  - eexists. vm_compute. reflexivity.
  - exists s'. split; [exact Hp|exact Hdead].
Defined.

(** X9. A second [purge] right after a [purge] changes nothing: on a state
    of the manager, the state that [purge] leaves is a fixed point of
    [purge], though its marked list is the same as before. *)
Theorem purge_twice (s s' : EntityManager) :
  reachable s → EM.purge s = Ok tt s' →
  EM.purge s' = Ok tt s'
  ∧ m_entitiesMarkedForRemoval s' = m_entitiesMarkedForRemoval s.
Proof.
  intros Hinv%reachable_invariant Hp.
  destruct (invariant_purge s Hinv) as (s1 & Hp1 & _ & Hlive & Hmk).
  assert (s1 = s') as -> by congruence. split; [|done].
  unfold EM.purge. rewrite Hmk. apply purge_loop_dead.
  intros e He. apply not_live_None. rewrite Hlive. tauto.
Qed.

Lemma purge_twice_witness :
  ∃ s', EM.purge Demo.s3 = Ok tt s' ∧ EM.purge s' = Ok tt s'.
Proof.
  eexists. split; [vm_compute; reflexivity|].
  refine (proj1 (purge_twice Demo.s3 _ demo_reachable_s3 _)).
  vm_compute. reflexivity.
Defined.

(** X10. Because marks outlive [purge], [purge] can destroy an entity that
    has not been marked since it was created: there is a history of a new
    manager that ends with a [createEntity] returning a valid id [e], after
    which a [purge], with no [markForRemoval] in between, destroys [e]. (An
    entity with that id was marked and purged earlier, and the search for
    ids has come round to [e] again.) *)
Theorem purge_destroys_entity_not_marked_since_creation :
  ∃ (tr : list (Op * Result Value)) (e : EntityId) (s s' : EntityManager),
    run EntityManager_new (tr ++ [(OpCreateEntity, Ok (VId e) s)]) s
    ∧ e ≠ InvalidEntity ∧ live s e
    ∧ EM.purge s = Ok tt s' ∧ ¬ live s' e.
Proof.
  pose (sb := {| m_entities := ∅;
                 m_entitiesMarkedForRemoval := [maxEntityId];
                 m_componentTypes := ∅;
                 m_nextEntityId := maxEntityId - 1 |}).
  assert (Hb : run EntityManager_new
                 [(OpCreateEntity, Ok (VId maxEntityId) Demo.s1);
                  (OpMarkForRemoval maxEntityId,
                   Ok VVoid (EM.markForRemoval maxEntityId Demo.s1));
                  (OpPurge, Ok VVoid sb)] sb).
  { econstructor; [exists 1%nat; simpl; by rewrite demo_create_s1|].
    econstructor; [by exists 0%nat|].
    econstructor; [exists 0%nat; vm_compute; reflexivity|]. constructor. }
  destruct (create_destroy_rounds (Z.to_nat (maxEntityId - 1)) sb) as (tr & Hrounds);
    [done|].
  assert (Hscan : scan (m_nextEntityId sb) (Z.to_nat (maxEntityId - 1)) = maxEntityId).
  { rewrite scan_closed by (vm_compute; split; discriminate).
    rewrite Z2Nat.id by (vm_compute; discriminate). vm_compute. reflexivity. }
  rewrite Hscan in Hrounds. clear Hscan.
  set (sc := set_nextEntityId maxEntityId sb) in *.
  eexists (_ ++ tr), maxEntityId, (created maxEntityId sc), _.
  split_and!.
  - rewrite <- app_assoc. apply (run_app _ _ sb); [exact Hb|].
    apply (run_app _ _ sc); [exact Hrounds|].
    econstructor; [exists 1%nat; vm_compute; reflexivity|]. constructor.
  - vm_compute. discriminate.
  - eexists. vm_compute. reflexivity.
  - vm_compute. reflexivity.
  - intros [cm Hcm]. vm_compute in Hcm. discriminate.
Qed.

(** X11. [getEntityNodes<T>] lists exactly the entities that have a component
    of type [T]: on a state of the manager it returns a non-null map in which
    [e] is mapped to [p] exactly when [e] is live and [m_entities[e][T]] is
    [p], so each of its nodes holds what [getComponent<T>] returns for that
    entity. The call does not touch the entity table, and calling it again
    returns the same map and changes nothing. *)
Theorem getEntityNodes_exact (s : EntityManager) (T : type_index) :
  reachable s →
  ∃ enNodes s', EM.getEntityNodes T s = Ok (Some enNodes) s'
    ∧ (∀ e p, enNodes !! e = Some p
              ↔ ∃ cmNodes, m_entities s !! e = Some cmNodes ∧ cmNodes !! T = Some p)
    ∧ (∀ e p, enNodes !! e = Some p →
              live s e ∧ p ≠ nullptr ∧ EM.getComponent T e s = p)
    ∧ m_entities s' = m_entities s
    ∧ EM.getEntityNodes T s' = Ok (Some enNodes) s'.
Proof.
  intros (Hcons & _ & Hty)%reachable_invariant.
  destruct (getEntityNodes_spec T s)
    as (enNodes & s' & Hget & Hnodes & Hslot & _ & Hm & _).
  exists enNodes, s'. split_and!; try done.
  - intros e p. by rewrite Hnodes, <- Hcons, <- lookup2_Some.
  - intros e p Hp. rewrite Hnodes, <- Hcons in Hp. split_and!.
    + apply (entity_entry_live s e T). by rewrite Hp.
    + destruct (Hty e T p Hp) as (c & -> & _). done.
    + by rewrite getComponent_entry, Hp.
  - unfold EM.getEntityNodes. by rewrite Hslot.
Qed.

Lemma getEntityNodes_exact_witness :
  ∃ enNodes s', EM.getEntityNodes "Position" Demo.s4 = Ok (Some enNodes) s'
    ∧ ∀ e p, enNodes !! e = Some p
             ↔ ∃ cmNodes, m_entities Demo.s4 !! e = Some cmNodes
                          ∧ cmNodes !! "Position" = Some p.
Proof.
  destruct (getEntityNodes_exact Demo.s4 "Position") as (enNodes & s' & Hget & Hiff & _).
  - apply (reachable_call 2 OpCreateEntity Demo.s2 (Ok (VId (maxEntityId - 1)) Demo.s4)).
    + exact demo_reachable_s2.
    + simpl. by rewrite demo_create_s4.
  - exists enNodes, s'. split; [exact Hget|exact Hiff].
Defined.

(** X12. Attach, then detach: on a state of the manager, after an
    [attachComponent e c] that returned [true], [detachComponent<T> e] for the
    type [T] of [c] returns [true] and undoes it. The entity table is as
    before the attach and so is every node of the index; the whole state is
    as before when the index had a map for [T] already (else an empty map for
    [T] stays behind). *)
Theorem attach_then_detach (s s1 : EntityManager) (e : EntityId) (c : Component) :
  reachable s → EM.attachComponent e (Some c) s = Ok true s1 →
  ∃ s2, EM.detachComponent (typeid c) e s1 = Ok true s2
    ∧ m_entities s2 = m_entities s
    ∧ (∀ T e', index_entry s2 T e' = index_entry s T e')
    ∧ (is_Some (m_componentTypes s !! typeid c) → s2 = s).
Proof.
  intros Hinv%reachable_invariant Hatt. pose proof Hinv as (Hcons & _).
  destruct (attachComponent_cases e (Some c) s) as [Hf|(c' & [= <-] & Hl & Hfree & Ht)];
    [congruence|].
  assert (s1 = attached e c s) as -> by congruence.
  pose proof (invariant_attached e c s Hinv Hl Hfree) as Hinv1.
  pose proof Hinv1 as (Hcons1 & _).
  assert (Hent1 : is_Some (entity_entry (attached e c s) e (typeid c))).
  { rewrite attached_entity_entry, decide_True by done. by eexists. }
  destruct (detachComponent_cases (typeid c) e _ Hcons1) as [[Hn _]|[_ Hdet]].
  { rewrite Hn in Hent1. by destruct Hent1. }
  exists (detached (typeid c) e (attached e c s)). split; [done|].
  destruct Hl as [cmNodes He].
  assert (HT : cmNodes !! typeid c = None).
  { pose proof Hfree as Hf. unfold entity_entry in Hf.
    by rewrite (lookup2_inner _ _ _ _ He) in Hf. }
  assert (Hidx : default ∅ (m_componentTypes s !! typeid c) !! e = None).
  { pose proof Hfree as Hf. rewrite Hcons in Hf. unfold index_entry, lookup2 in Hf.
    destruct (m_componentTypes s !! typeid c); simpl in *; [done|apply lookup_empty]. }
  assert (Hm : m_entities (detached (typeid c) e (attached e c s)) = m_entities s).
  { unfold detached, attached. simpl. rewrite He. simpl.
    rewrite lookup_insert_eq. simpl. rewrite insert_insert_eq.
    rewrite delete_insert_id by done. by apply insert_id. }
  assert (Hc : m_componentTypes (detached (typeid c) e (attached e c s))
               = <[typeid c := default ∅ (m_componentTypes s !! typeid c)]>
                   (m_componentTypes s)).
  { unfold detached, attached. simpl.
    rewrite lookup_insert_eq. simpl. rewrite insert_insert_eq.
    rewrite (map_insert_new_None _ _ _ Hidx). simpl.
    by rewrite delete_insert_id by done. }
  split_and!; [done| |].
  - intros T e'. unfold index_entry. rewrite Hc.
    destruct (m_componentTypes s !! typeid c) as [enNodes|] eqn:Hs; simpl.
    + by rewrite insert_id.
    + by apply lookup2_insert_fresh.
  - intros [enNodes Hs]. rewrite Hs in Hc.
    change (default ∅ (Some enNodes)) with enNodes in Hc.
    rewrite (insert_id _ _ _ Hs) in Hc.
    by apply EntityManager_eq.
Qed.

Lemma attach_then_detach_witness :
  ∃ s2, EM.detachComponent "Position" maxEntityId Demo.s2 = Ok true s2
    ∧ m_entities s2 = m_entities Demo.s1.
Proof.
  destruct (attach_then_detach Demo.s1 Demo.s2 maxEntityId Demo.position
              demo_reachable_s1 demo_attach_s2) as (s2 & Hdet & Hm & _).
  exists s2. split; [exact Hdet|exact Hm].
Defined.

(** X13. Detach, then attach again: on a state of the manager, when
    [detachComponent<T> e] returns [true], the entity had a component [c] of
    dynamic type [T] (the one [getComponent<T> e] returned), and attaching
    [c] to [e] again returns [true] and gives back the state before the
    detach, exactly. *)
Theorem detach_then_attach (s s1 : EntityManager) (e : EntityId) (T : type_index) :
  reachable s → EM.detachComponent T e s = Ok true s1 →
  ∃ c, EM.getComponent T e s = Some c ∧ typeid c = T
    ∧ EM.attachComponent e (Some c) s1 = Ok true s.
Proof.
  intros Hinv%reachable_invariant Hdet. pose proof Hinv as (Hcons & _ & Hty).
  destruct (detachComponent_cases T e s Hcons) as [[_ Hf]|[[p Hp] Ht]]; [congruence|].
  assert (s1 = detached T e s) as -> by congruence.
  destruct (Hty e T p Hp) as (c & -> & <-).
  pose proof (entity_entry_live s e (typeid c) ltac:(by rewrite Hp)) as Hl.
  exists c. split; [by rewrite getComponent_entry, Hp|]. split; [done|].
  rewrite attachComponent_fresh.
  - f_equal. pose proof Hp as Hi. rewrite Hcons in Hi.
    apply lookup2_Some in Hp as (cmNodes & He & HT).
    apply lookup2_Some in Hi as (enNodes & Hc & Hn).
    apply EntityManager_eq; try done.
    + unfold attached, detached. simpl. rewrite He. simpl.
      rewrite lookup_insert_eq. simpl. rewrite insert_insert_eq.
      rewrite insert_delete_eq, (insert_id cmNodes) by done. by apply insert_id.
    + unfold attached, detached. simpl. rewrite Hc. simpl.
      rewrite lookup_insert_eq. simpl. rewrite insert_insert_eq.
      rewrite (map_insert_new_None _ _ _ (lookup_delete_eq _ _)). simpl.
      rewrite insert_delete_eq, (insert_id enNodes) by done. by apply insert_id.
  - by apply detached_live.
  - rewrite detached_entity_entry by done. by rewrite decide_True.
Qed.

Lemma detach_then_attach_witness :
  ∃ c, EM.getComponent "Position" maxEntityId Demo.s2 = Some c
    ∧ EM.attachComponent maxEntityId (Some c)
        (detached "Position" maxEntityId Demo.s2)
      = Ok true Demo.s2.
Proof.
  destruct (detach_then_attach Demo.s2 (detached "Position" maxEntityId Demo.s2)
              maxEntityId "Position") as (c & Hget & _ & Hatt).
  - exact demo_reachable_s2.
  - vm_compute. reflexivity.
  - exists c. split; [exact Hget|exact Hatt].
Defined.

Section slots.
Implicit Types (s : EntityManager) (e : EntityId) (T : type_index).

Lemma insert_keeps_slot (types : ComponentTypes) T' nodes T :
  is_Some (types !! T) → is_Some (<[T' := nodes]> types !! T).
Proof.
  intros Hs. rewrite lookup_insert. by case_decide; [eexists|].
Qed.

Lemma destroyEntity_nodes_slots e nodes s T :
  is_Some (m_componentTypes s !! T) →
  is_Some (m_componentTypes (state_of (EM.destroyEntity_nodes e nodes s)) !! T).
Proof.
  revert s. induction nodes as [|[T' p] nodes IH]; intros s Hs; simpl; [done|].
  destruct (m_componentTypes s !! T') as [enNodes|]; simpl; [|done].
  destruct (enNodes !! e); simpl; [|done].
  apply IH. simpl. by apply insert_keeps_slot.
Qed.

Lemma destroyEntity_slots e s T :
  is_Some (m_componentTypes s !! T) →
  is_Some (m_componentTypes (state_of (EM.destroyEntity e s)) !! T).
Proof.
  intros Hs. unfold EM.destroyEntity. destruct (m_entities s !! e) as [cm|]; [|done].
  pose proof (destroyEntity_nodes_slots e (map_to_list cm) s T Hs) as Hn.
  by destruct (EM.destroyEntity_nodes e (map_to_list cm) s).
Qed.

Lemma purge_loop_slots marked s T :
  is_Some (m_componentTypes s !! T) →
  is_Some (m_componentTypes (state_of (EM.purge_loop marked s)) !! T).
Proof.
  revert s. induction marked as [|e marked IH]; intros s Hs; simpl; [done|].
  pose proof (destroyEntity_slots e s T Hs) as Hd.
  destruct (EM.destroyEntity e s) as [b s1|what s1]; simpl in *; [by apply IH|done].
Qed.
End slots.

(** X14. The map of a component type, once the index has it, stays there,
    empty or not: in any state, whatever a call other than
    [destroyAllEntities] does (an exception included), a type that has a map
    in [m_componentTypes] before the call has one after it. *)
Theorem component_type_maps_persist (s : EntityManager) (op : Op) (fuel : nat)
    (r : Result Value) (T : type_index) :
  op ≠ OpDestroyAllEntities → call fuel op s = Some r →
  is_Some (m_componentTypes s !! T) →
  is_Some (m_componentTypes (state_of r) !! T).
Proof.
  intros Hop Hcall Hs. destruct op as [|e| |e p|T' e|T' e|T'|e|]; simpl in Hcall;
    try done.
  - destruct (EM.createEntity fuel s) as [[e s']|] eqn:Hc; [|done].
    injection Hcall as <-. simpl.
    by destruct (createEntity_Some _ _ _ _ Hc) as [(_ & _ & ->)|(_ & k & _ & _ & _ & ->)].
  - injection Hcall as <-. pose proof (destroyEntity_slots e s T Hs) as Hd.
    by destruct (EM.destroyEntity e s).
  - injection Hcall as <-.
    destruct (attachComponent_cases e p s) as [->|(c & -> & _ & _ & ->)]; [done|].
    simpl. by apply insert_keeps_slot.
  - injection Hcall as <-. unfold EM.detachComponent.
    destruct (m_entities s !! e) as [cm|]; [|done].
    destruct (cm !! T'); [|done]. simpl.
    destruct (m_componentTypes s !! T') as [enNodes|]; [|done].
    destruct (enNodes !! e); [|done]. simpl. by apply insert_keeps_slot.
  - by injection Hcall as <-.
  - injection Hcall as <-. unfold EM.getEntityNodes.
    destruct (m_componentTypes s !! T') as [enNodes|] eqn:Hc; [done|].
    rewrite (map_insert_new_None _ _ _ Hc). simpl. by apply insert_keeps_slot.
  - injection Hcall as <-. simpl. by destruct (markForRemoval_tables e s) as (_ & -> & _).
  - injection Hcall as <-. pose proof (purge_loop_slots (m_entitiesMarkedForRemoval s) s T Hs) as Hp.
    unfold EM.purge. by destruct (EM.purge_loop _ s).
Qed.

Lemma component_type_maps_persist_witness :
  is_Some (m_componentTypes
             (state_of (returning VBool (EM.destroyEntity maxEntityId Demo.s2)))
           !! "Position").
Proof.
  apply (component_type_maps_persist Demo.s2 (OpDestroyEntity maxEntityId) 0).
  - discriminate.
  - reflexivity.
  - eexists. vm_compute. reflexivity.
Defined.

(** X15. What the manager stores casts back to its type: on a state of the
    manager, [getComponentAs<T>] returns, without throwing, the pointer that
    [getComponent<T>] returned when that is non-null, and every node of the
    map that [getEntityNodes<T>] returned; on such a node
    [getComponentAs<T'>] for another type [T'] throws the incompatible-type
    error. *)
Theorem getComponentAs_stored (s : EntityManager) (T : type_index) :
  reachable s →
  (∀ e c, EM.getComponent T e s = Some c →
          getComponentAs T (Some c) = inr (Some c))
  ∧ (∀ enNodes s' e p,
       EM.getEntityNodes T s = Ok (Some enNodes) s' → enNodes !! e = Some p →
       getComponentAs T p = inr p
       ∧ ∀ T', T' ≠ T →
           getComponentAs T' p
           = inl "Attempted to cast component to incompatible type.").
Proof.
  intros (Hcons & _ & Hty)%reachable_invariant. split.
  - intros e c Hget. rewrite getComponent_entry in Hget.
    destruct (entity_entry s e T) as [p|] eqn:Hp; [|done]. simpl in Hget. subst p.
    destruct (Hty e T _ Hp) as (c' & [= <-] & Hc).
    unfold getComponentAs. by rewrite decide_True.
  - intros enNodes s' e p Hget Hp.
    destruct (getEntityNodes_spec T s) as (enNodes' & s'' & Hget' & Hnodes & _).
    assert (enNodes' = enNodes) as -> by congruence.
    rewrite Hnodes, <- Hcons in Hp. destruct (Hty e T p Hp) as (c & -> & Hc).
    unfold getComponentAs. split.
    + by rewrite decide_True.
    + intros T' Hne. rewrite decide_False; [done|]. congruence.
Qed.

Lemma getComponentAs_stored_witness :
  getComponentAs "Position" (Some Demo.position) = inr (Some Demo.position).
Proof.
  apply (proj1 (getComponentAs_stored Demo.s2 "Position" demo_reachable_s2)
           maxEntityId Demo.position).
  vm_compute. reflexivity.
Defined.

(** X16. Destroying an entity makes room: on a state of the manager, after a
    [destroyEntity] that returned [true] the next [createEntity] succeeds, it
    returns a valid id that was not live, never [InvalidEntity]; and when
    every valid id was live before the [destroyEntity] (the manager was
    full), the id it returns is the one just freed. *)
Theorem createEntity_after_destroy (s s' : EntityManager) (e : EntityId) :
  reachable s → EM.destroyEntity e s = Ok true s' →
  ∃ (e' : EntityId) (k : nat),
    e' ≠ InvalidEntity ∧ ¬ live s' e'
    ∧ (exhausted s → e' = e)
    ∧ ∀ fuel, (k < fuel)%nat → EM.createEntity fuel s' = Some (e', created e' s').
Proof.
  intros Hinv%reachable_invariant Hd.
  destruct (invariant_destroyEntity e s Hinv)
    as (b & s1 & Hd1 & Hinv1 & Hb & Hlive & _).
  assert (b = true ∧ s1 = s') as [-> ->] by (split; congruence).
  pose proof Hinv as (_ & [Hr _] & _). pose proof Hinv1 as (_ & Hrange1 & _).
  pose proof Hrange1 as [Hr1 Hcur1].
  assert (Hl : live s e) by by apply Hb.
  assert (Hsz : Z.of_nat (size (m_entities s')) ≠ maxEntityId).
  { intros Hsz. pose proof (proj1 (size_max_iff_full _ Hr1) Hsz e (Hr e Hl)) as Hl'.
    apply Hlive in Hl'. tauto. }
  destruct (createEntity_total s' Hrange1 Hsz) as (k & _ & Hav).
  pose proof Hav as [Hnone _].
  exists (scan (m_nextEntityId s') k), k. split_and!.
  - by apply scan_valid.
  - by apply not_live_None.
  - intros Hex. destruct (decide (scan (m_nextEntityId s') k = e)) as [|Hne]; [done|].
    exfalso. apply not_live_None in Hnone. apply Hnone, Hlive. split; [|done].
    by apply Hex, scan_in_range.
  - intros fuel Hf. by apply createEntity_first.
Qed.

Lemma createEntity_after_destroy_witness :
  ∃ (e' : EntityId) (k : nat),
    e' ≠ InvalidEntity
    ∧ ∀ fuel, (k < fuel)%nat →
        EM.createEntity fuel (set_entities ∅ (set_componentTypes {["Position" := ∅]} Demo.s2))
        = Some (e', created e' (set_entities ∅ (set_componentTypes {["Position" := ∅]} Demo.s2))).
Proof.
  destruct (createEntity_after_destroy Demo.s2
              (set_entities ∅ (set_componentTypes {["Position" := ∅]} Demo.s2))
              maxEntityId) as (e' & k & Hv & _ & _ & Hc).
  - exact demo_reachable_s2.
  - vm_compute. reflexivity.
  - exists e', k. split; [exact Hv|exact Hc].
Defined.
